(** * Marketing-Mavericks-Agent: retry, validation and session-store core

    A shallow embedding of the brand-context store and of the chat endpoint
    (both in [src/server/brandContext.ts], the endpoint being the part that
    imports [express]), of the content generator ([generateContent], the
    server's [openai] module, [unnamed/part_000]) and of the browser-side
    request layer ([src/client/api/chatClient.ts]), with the properties the
    specification states about them.

    Effects are explicit: the store is passed in and out of the handler,
    and the generator and the client run against an oracle that gives the
    outcome of the n-th outbound call, recording calls and timer waits in
    the order they happen. Console output is not modelled. *)

From Stdlib Require Import ZArith NArith List Bool Lia.
From Stdlib Require DecimalString.
From stdpp Require Import base option list strings gmap.

Local Open Scope Z_scope.

(** * JavaScript strings

    A JavaScript string is a sequence of UTF-16 code units; [length] counts
    code units. String literals of the source are ASCII and are written
    with [lit]. *)

Abbreviation jsstring := (list N).

Definition lit (s : string) : jsstring :=
  Ascii.N_of_ascii <$> String.list_ascii_of_string s.
Arguments lit s%_string.

(** [String.prototype.includes]: [needle] occurs in [s] as a substring. *)
Fixpoint startsWith (needle s : jsstring) : bool :=
  match needle, s with
  | [], _ => true
  | _ :: _, [] => false
  | a :: needle', b :: s' => (a =? b)%N && startsWith needle' s'
  end.

Fixpoint includes (needle s : jsstring) : bool :=
  startsWith needle s ||
  match s with
  | [] => false
  | _ :: s' => includes needle s'
  end.

(** [String.prototype.substr(start, len)] for non-negative arguments. *)
Definition substr (start len : nat) (s : jsstring) : jsstring :=
  take len (drop start s).

(** Decimal rendering of an integer inside a template literal. *)
Definition numberToString (z : Z) : jsstring :=
  lit (DecimalString.NilZero.string_of_int (Z.to_int z)).

(** The code units matched by the regular-expression class [\s] and
    stripped by [String.prototype.trim]: ECMAScript WhiteSpace and
    LineTerminator. *)
Definition isWhiteSpace (c : N) : bool :=
  ((c =? 9) || (c =? 10) || (c =? 11) || (c =? 12) || (c =? 13)
   || (c =? 32) || (c =? 160) || (c =? 5760)
   || ((8192 <=? c) && (c <=? 8202))
   || (c =? 8232) || (c =? 8233) || (c =? 8239) || (c =? 8287)
   || (c =? 12288) || (c =? 65279))%N.

Definition SPACE : N := 32%N.
Definition NUL : N := 0%N.

(** * Input sanitization ([sanitizeInput], chat endpoint) *)

Module Sanitize.

(** [input.replace(/\0/g, ' ')] *)
Definition replaceNull (s : jsstring) : jsstring :=
  (fun c => if (c =? NUL)%N then SPACE else c) <$> s.

Fixpoint trimStart (s : jsstring) : jsstring :=
  match s with
  | [] => []
  | c :: r => if isWhiteSpace c then trimStart r else s
  end.

Definition trimEnd (s : jsstring) : jsstring :=
  rev (trimStart (rev s)).

(** [sanitized.trim()] *)
Definition trim (s : jsstring) : jsstring := trimEnd (trimStart s).

(** [sanitized.replace(/\s+/g, ' ')]: every maximal run of white space is
    replaced by one space. [inRun] says that the preceding code unit
    belonged to the run being replaced. *)
Fixpoint collapseFrom (inRun : bool) (s : jsstring) : jsstring :=
  match s with
  | [] => []
  | c :: r =>
      if isWhiteSpace c
      then (if inRun then collapseFrom true r else SPACE :: collapseFrom true r)
      else c :: collapseFrom false r
  end.

Definition collapseWhitespace (s : jsstring) : jsstring := collapseFrom false s.

Definition sanitizeInput (input : jsstring) : jsstring :=
  let sanitized := replaceNull input in
  let sanitized := trim sanitized in
  let sanitized := collapseWhitespace sanitized in
  sanitized.

(** ** The normalization the specification describes

    Words: a message is cut at every white-space code unit, the empty
    pieces are dropped (which removes leading and trailing white space and
    merges runs), and the remaining words are joined by single spaces. *)

Fixpoint splitWs (s : jsstring) : list jsstring :=
  match s with
  | [] => [[]]
  | c :: r =>
      if isWhiteSpace c then [] :: splitWs r
      else match splitWs r with
           | w :: ws => (c :: w) :: ws
           | [] => [[c]]
           end
  end.

Definition nonEmpty (w : jsstring) : bool :=
  match w with [] => false | _ :: _ => true end.

Definition words (s : jsstring) : list jsstring :=
  List.filter nonEmpty (splitWs s).

Fixpoint joinSpace (ws : list jsstring) : jsstring :=
  match ws with
  | [] => []
  | [w] => w
  | w :: rest => w ++ SPACE :: joinSpace rest
  end.

(** The normalization in the words of the specification, on the message
    itself: a null character separates words just as white space does (it
    is replaced by a space); the message is cut at every separator, the
    empty pieces are dropped and the words are joined by single spaces. *)
Definition separator (c : N) : bool := (c =? NUL)%N || isWhiteSpace c.

Fixpoint splitAtSeparators (s : jsstring) : list jsstring :=
  match s with
  | [] => [[]]
  | c :: r =>
      if separator c then [] :: splitAtSeparators r
      else match splitAtSeparators r with
           | w :: ws => (c :: w) :: ws
           | [] => [[c]]
           end
  end.

Definition normalize_spec (s : jsstring) : jsstring :=
  joinSpace (List.filter nonEmpty (splitAtSeparators s)).

End Sanitize.

(** * JavaScript values

    Request fields on which the handler performs run-time type checks
    ([message], [history] and the entries of [history]) are untyped JSON
    values. A number is kept as an integer: the handler only tests numbers
    for truthiness and never computes with them. *)

#[local] Set Warnings "-register-all".
Inductive JsVal :=
| JUndefined
| JNull
| JBool (b : bool)
| JNum (z : Z)
| JStr (s : jsstring)
| JArr (items : list JsVal)
| JObj (props : list (jsstring * JsVal)).

(** [ToBoolean] *)
Definition truthy (v : JsVal) : bool :=
  match v with
  | JUndefined | JNull => false
  | JBool b => b
  | JNum z => negb (z =? 0)
  | JStr s => negb (bool_decide (s = []))
  | JArr _ | JObj _ => true
  end.

Definition isString (v : JsVal) : bool :=
  match v with JStr _ => true | _ => false end.

(** Own properties of an object, in order; a key is looked up from the
    front. *)
Fixpoint lookupProp (key : jsstring) (props : list (jsstring * JsVal)) : JsVal :=
  match props with
  | [] => JUndefined
  | (k, v) :: rest => if bool_decide (k = key) then v else lookupProp key rest
  end.

(** Property read [v.key] for a key that no prototype defines ([role],
    [content]): reading from [null] or [undefined] throws a TypeError
    (message as worded by V8), reading from a primitive or an array gives
    [undefined]. *)
Definition getProp (v : JsVal) (key : jsstring) : jsstring + JsVal :=
  match v with
  | JUndefined =>
      inl (lit "Cannot read properties of undefined (reading '" ++ key ++ lit "')")
  | JNull =>
      inl (lit "Cannot read properties of null (reading '" ++ key ++ lit "')")
  | JObj props => inr (lookupProp key props)
  | _ => inr JUndefined
  end.

Definition hasOwn (key : jsstring) (props : list (jsstring * JsVal)) : bool :=
  existsb (fun kv => bool_decide (kv.1 = key)) props.

(** [ToString] of a value parsed from JSON, as [new Error(value)] and
    template literals apply it; [None] is the TypeError "Cannot convert
    object to primitive value". An array is joined with commas, [null]
    elements giving the empty string. An object has no callable method of
    its own: it is rendered by [Object.prototype.toString] unless an own
    property [toString] shadows that method, in which case neither
    [toString] nor [valueOf] yields a primitive. A number is an integer
    and is rendered in decimal (as JavaScript does below 10^21). *)
Fixpoint toStringJs (v : JsVal) : option jsstring :=
  match v with
  | JUndefined => Some (lit "undefined")
  | JNull => Some (lit "null")
  | JBool b => Some (if b then lit "true" else lit "false")
  | JNum z => Some (numberToString z)
  | JStr s => Some s
  | JArr items =>
      (fix join (items : list JsVal) : option jsstring :=
         let element (x : JsVal) :=
           match x with
           | JUndefined | JNull => Some []
           | _ => toStringJs x
           end in
         match items with
         | [] => Some []
         | [x] => element x
         | x :: rest =>
             match element x, join rest with
             | Some a, Some b => Some (a ++ lit "," ++ b)
             | _, _ => None
             end
         end) items
  | JObj props =>
      if hasOwn (lit "toString") props then None else Some (lit "[object Object]")
  end.

(** * Brand-context store ([BrandContextStore], src/server/brandContext.ts) *)

(** A property of a [BrandContext] (or [Partial<BrandContext>]) object is
    absent, or present with a string, or present with the value
    [undefined]; the object is the finite map of its own properties. *)
Inductive FieldVal :=
| FUndefined
| FString (s : jsstring).

Abbreviation BrandContext := (gmap jsstring FieldVal).

(** Object spread [{ ...o1, ...o2, ... }]: the own properties of each
    layer are copied in turn, a later layer overwriting an earlier one. *)
Definition objectSpread (layers : list BrandContext) : BrandContext :=
  foldl (fun acc o => o ∪ acc) ∅ layers.

Module BrandContextStore.

(** The private field [contexts : Map<string, BrandContext>]. *)
Abbreviation t := (gmap jsstring BrandContext).

Definition empty : t := ∅.

Definition set (sessionId : jsstring) (context : BrandContext) (contexts : t) : t :=
  <[sessionId := objectSpread [context]]> contexts.

Definition get (sessionId : jsstring) (contexts : t) : option BrandContext :=
  match contexts !! sessionId with
  | Some context => Some (objectSpread [context])
  | None => None
  end.

Definition update (sessionId : jsstring) (context : BrandContext) (contexts : t) : t :=
  let existing := default ∅ (contexts !! sessionId) in
  <[sessionId := objectSpread [existing; context]]> contexts.

Definition has (sessionId : jsstring) (contexts : t) : bool :=
  bool_decide (is_Some (contexts !! sessionId)).

Definition delete (sessionId : jsstring) (contexts : t) : bool * t :=
  (bool_decide (is_Some (contexts !! sessionId)), base.delete sessionId contexts).

Definition clear (contexts : t) : t := ∅.

Definition size (contexts : t) : nat := base.size contexts.

End BrandContextStore.

(** * Chat endpoint ([app.post('/api/chat')], src/server/brandContext.ts) *)

Module Server.

(** The request body. [brandContext] and [sessionId] are never type-checked
    by the handler and are typed as the [ChatRequest] interface declares
    them; [None] is an absent ([undefined]) field. *)
Record ChatRequest := {
  message : JsVal;
  history : JsVal;
  brandContext : option BrandContext;
  sessionId : option jsstring
}.

(** The JSON body of a reply; [None] is a property that is not set. *)
Record ChatResponse := {
  response : option jsstring;
  success : bool;
  error : option jsstring;
  resSessionId : option jsstring
}.

Record HttpReply := {
  status : Z;
  body : ChatResponse
}.

(** One invocation of [generateContent] by the handler. *)
Record GenCall := {
  gc_message : jsstring;
  gc_history : list JsVal;
  gc_brandContext : option BrandContext
}.

(** What the race between the generation promise and the 29 s timer
    settles with. *)
Inductive Thrown :=
| ErrorObject (msg : jsstring)
| NonError.

Inductive GenOutcome :=
| Resolved (text : jsstring)
| Rejected (e : Thrown)
| TimedOut.

(** What the handler takes from its surroundings: the (possibly mocked)
    generator raced against the timer, the clock and the random source. *)
Record Env := {
  generate : GenCall -> GenOutcome;
  now : Z;                      (* Date.now() *)
  random36 : jsstring           (* Math.random().toString(36) *)
}.

(** What one run of the handler leaves behind. *)
Record Outcome := {
  reply : HttpReply;
  store : BrandContextStore.t;
  generated : list GenCall
}.

Definition MAX_MESSAGE_LENGTH : Z := 5000.
Definition MAX_HISTORY_LENGTH : Z := 50.

Definition errorReply (code : Z) (msg : jsstring) : HttpReply :=
  {| status := code;
     body := {| response := None; success := false;
                error := Some msg; resSessionId := None |} |}.

(** Control flow of the handler body: go on, [return res.status(..).json(..)],
    or throw into the enclosing [catch]. *)
Inductive Step (A : Type) :=
| Continue (a : A)
| Respond (r : HttpReply)
| Throw (e : Thrown).
Arguments Continue {A} a.
Arguments Respond {A} r.
Arguments Throw {A} e.

#[export] Instance step_ret : MRet Step := fun A a => Continue a.

#[export] Instance step_bind : MBind Step := fun A B k m =>
  match m with
  | Continue a => k a
  | Respond r => Respond r
  | Throw e => Throw e
  end.

(** Checks 1 to 3: type of [message], sanitization, emptiness, length. *)
Definition validateMessage (message : JsVal) : Step jsstring :=
  match message with
  | JStr message =>
      let sanitizedMessage := Sanitize.sanitizeInput message in
      if Z.of_nat (length sanitizedMessage) =? 0 then
        Respond (errorReply 400 (lit "Invalid request: message cannot be empty"))
      else if MAX_MESSAGE_LENGTH <? Z.of_nat (length sanitizedMessage) then
        Respond (errorReply 400
          (lit "Invalid request: message exceeds maximum length of "
           ++ numberToString MAX_MESSAGE_LENGTH ++ lit " characters"))
      else Continue sanitizedMessage
  | _ =>
      Respond (errorReply 400
        (lit "Invalid request: message is required and must be a string"))
  end.

(** The loop over the history entries:
    [if (!msg.role || !msg.content || typeof msg.content !== 'string')]. *)
Fixpoint validateHistoryItems (items : list JsVal) : Step unit :=
  match items with
  | [] => Continue tt
  | msg :: rest =>
      match getProp msg (lit "role") with
      | inl e => Throw (ErrorObject e)
      | inr role =>
          if negb (truthy role) then
            Respond (errorReply 400
              (lit "Invalid request: history messages must have role and content"))
          else
            match getProp msg (lit "content") with
            | inl e => Throw (ErrorObject e)
            | inr content =>
                if negb (truthy content) || negb (isString content) then
                  Respond (errorReply 400
                    (lit "Invalid request: history messages must have role and content"))
                else validateHistoryItems rest
            end
      end
  end.

(** Checks 4 to 6; the result is [history || []]. *)
Definition validateHistory (history : JsVal) : Step (list JsVal) :=
  match history with
  | JUndefined => Continue []
  | JArr items =>
      if MAX_HISTORY_LENGTH <? Z.of_nat (length items) then
        Respond (errorReply 400
          (lit "Invalid request: history exceeds maximum length of "
           ++ numberToString MAX_HISTORY_LENGTH ++ lit " messages"))
      else
        _ ← validateHistoryItems items;
        mret items
  | _ => Respond (errorReply 400 (lit "Invalid request: history must be an array"))
  end.

(** Truthiness of the two optional fields: an object is always truthy, a
    string is truthy when it is not empty. *)
Definition contextGiven (brandContext : option BrandContext) : bool :=
  match brandContext with Some _ => true | None => false end.

Definition sessionGiven (sessionId : option jsstring) : bool :=
  match sessionId with Some (_ :: _) => true | _ => false end.

Definition newSessionId (env : Env) : jsstring :=
  lit "session_" ++ numberToString (now env) ++ lit "_" ++ substr 2 9 (random36 env).

(** Brand-context resolution: the effective context, the effective
    session id and the store afterwards. In the branches that use them,
    [brandContext] and [sessionId] are present, so the defaults below are
    never taken. *)
Definition resolveBrandContext (env : Env) (brandContext : option BrandContext)
    (sessionId : option jsstring) (contexts : BrandContextStore.t)
  : option BrandContext * option jsstring * BrandContextStore.t :=
  let ctx := default ∅ brandContext in
  let sid := default [] sessionId in
  if contextGiven brandContext && sessionGiven sessionId then
    (brandContext, sessionId, BrandContextStore.set sid ctx contexts)
  else if negb (contextGiven brandContext) && sessionGiven sessionId
          && BrandContextStore.has sid contexts then
    (BrandContextStore.get sid contexts, sessionId, contexts)
  else if contextGiven brandContext && negb (sessionGiven sessionId) then
    let effectiveSessionId := newSessionId env in
    (brandContext, Some effectiveSessionId,
     BrandContextStore.set effectiveSessionId ctx contexts)
  else (brandContext, sessionId, contexts).

Definition thrownMessage (e : Thrown) : jsstring :=
  match e with
  | ErrorObject msg => msg
  | NonError => lit "Unknown error occurred"
  end.

Definition failureReply (e : Thrown) : HttpReply :=
  errorReply 500 (lit "Failed to generate response: " ++ thrownMessage e).

(** The validation part of the handler, checks 1 to 6 in order. *)
Definition validateRequest (req : ChatRequest) : Step (jsstring * list JsVal) :=
  sanitizedMessage ← validateMessage (message req);
  items ← validateHistory (history req);
  mret (sanitizedMessage, items).

Definition chatHandler (env : Env) (req : ChatRequest) (contexts : BrandContextStore.t)
  : Outcome :=
  match validateRequest req with
  | Respond r => {| reply := r; store := contexts; generated := [] |}
  | Throw e => {| reply := failureReply e; store := contexts; generated := [] |}
  | Continue (sanitizedMessage, items) =>
      let '(effectiveBrandContext, effectiveSessionId, contexts') :=
        resolveBrandContext env (brandContext req) (sessionId req) contexts in
      let call := {| gc_message := sanitizedMessage; gc_history := items;
                     gc_brandContext := effectiveBrandContext |} in
      let r :=
        match generate env call with
        | Resolved text =>
            {| status := 200;
               body := {| response := Some text; success := true; error := None;
                          resSessionId :=
                            if sessionGiven effectiveSessionId
                            then effectiveSessionId else None |} |}
        | Rejected e => failureReply e
        | TimedOut => failureReply (ErrorObject (lit "Generation timeout"))
        end in
      {| reply := r; store := contexts'; generated := [call] |}
  end.

(** ** Notions used to state the properties of the handler *)

(** The reply is an error reply with the given status whose text contains
    [fragment]. *)
Definition rejectsWith (code : Z) (fragment : jsstring) (r : HttpReply) : bool :=
  (status r =? code) && negb (success (body r)) &&
  match error (body r) with
  | Some text => includes fragment text
  | None => false
  end.

(** The value of a property of a history entry that can be read. *)
Definition entryProp (msg : JsVal) (key : jsstring) : JsVal :=
  match msg with
  | JObj props => lookupProp key props
  | _ => JUndefined
  end.

(** An entry with a truthy [role] and a [content] that is a non-empty
    string. *)
Definition hasRoleAndContent (msg : JsVal) : bool :=
  truthy (entryProp msg (lit "role")) &&
  match entryProp msg (lit "content") with
  | JStr (_ :: _) => true
  | _ => false
  end.

(** An environment in which generation succeeds, as with the mocked
    generator of the endpoint tests. *)
Definition testEnv : Env :=
  {| generate := fun _ => Resolved (lit "Test marketing response");
     now := 1700000000000;
     random36 := lit "0.4fzyo82mvyr" |}.

(** An entry whose properties can be read: anything but [null] and
    [undefined]. *)
Definition readable (msg : JsVal) : bool :=
  match msg with
  | JUndefined | JNull => false
  | _ => true
  end.

End Server.

(** * Content generator ([generateContent], unnamed/part_000) *)

Module Generator.

(** A value thrown by the upstream client, typed as the [catch] block
    treats it ([error as Error]): an object with a [message] and, for API
    errors, a numeric [status]. *)
Record UpstreamError := {
  status : option Z;
  message : jsstring
}.

(** How one call of [openai.chat.completions.create] settles: with a
    completion whose [choices[0]?.message?.content] is a string or missing,
    or with a thrown error. *)
Inductive UpstreamResult :=
| Completion (content : option jsstring)
| Throws (e : UpstreamError).

(** The message list is built once, before the loop, and is the same for
    every attempt; the upstream is therefore given by its answer to the
    n-th call (counted from 0). *)
Abbreviation Upstream := (nat -> UpstreamResult).

Inductive Event :=
| UpstreamCall
| Sleep (ms : Z).

(** The observable run so far: the number of upstream calls made and the
    calls and timer waits in the order they happened. *)
Record World := {
  calls : nat;
  events : list Event
}.

Definition initial : World := {| calls := 0; events := [] |}.

Definition callUpstream (up : Upstream) (w : World) : UpstreamResult * World :=
  (up (calls w), {| calls := S (calls w); events := events w ++ [UpstreamCall] |}).

(** [await new Promise(resolve => setTimeout(resolve, ms))] *)
Definition sleep (ms : Z) (w : World) : World :=
  {| calls := calls w; events := events w ++ [Sleep ms] |}.

Inductive Result :=
| Returned (text : jsstring)
| Failed (msg : jsstring).

Definition hasStatus (e : UpstreamError) (code : Z) : bool :=
  match status e with
  | Some s => s =? code
  | None => false
  end.

Definition statusAtLeast (e : UpstreamError) (code : Z) : bool :=
  match status e with
  | Some s => code <=? s
  | None => false
  end.

Definition rateLimitMessage : jsstring :=
  lit "The service is experiencing high demand. Please wait a moment and try again.".
Definition authMessage : jsstring :=
  lit "API authentication failed. Please check your OpenAI API key.".
Definition invalidRequestMessage : jsstring :=
  lit "Invalid request to OpenAI API. Please try rephrasing your message.".
Definition unavailableMessage : jsstring :=
  lit "OpenAI service is temporarily unavailable. Please try again in a moment.".
Definition networkMessage : jsstring :=
  lit "Network connection error. Please check your internet connection and try again.".

(** The code after the loop. *)
Definition allRetriesFailed (lastError : option UpstreamError) (isRateLimited : bool)
  : Result :=
  if isRateLimited then Failed rateLimitMessage
  else
    let text :=
      match lastError with
      | Some e => if bool_decide (message e = []) then lit "Unknown error" else message e
      | None => lit "Unknown error"
      end in
    Failed (lit "Unable to generate content: " ++ text ++ lit ". Please try again.").

(** The [for] loop, started at [attempt]. Every iteration uses one unit of
    [fuel]; [None] is a loop that ran out of it. *)
Fixpoint retryLoop (up : Upstream) (maxRetries : Z) (fuel : nat) (attempt : Z)
    (lastError : option UpstreamError) (isRateLimited : bool) (w : World)
  : option (Result * World) :=
  if attempt <? maxRetries then
    match fuel with
    | O => None
    | S fuel =>
        let '(settled, w) := callUpstream up w in
        let catch (error : UpstreamError) : option (Result * World) :=
          let lastError := Some error in
          if hasStatus error 429 then
            let isRateLimited := true in
            let delay := 2 ^ attempt * 1000 in
            retryLoop up maxRetries fuel (attempt + 1) lastError isRateLimited
              (sleep delay w)
          else if hasStatus error 401 then Some (Failed authMessage, w)
          else if hasStatus error 400 then Some (Failed invalidRequestMessage, w)
          else if statusAtLeast error 500 then
            if attempt <? maxRetries - 1 then
              retryLoop up maxRetries fuel (attempt + 1) lastError isRateLimited
                (sleep 1000 w)
            else Some (Failed unavailableMessage, w)
          else if includes (lit "fetch") (message error)
                  || includes (lit "network") (message error) then
            if attempt <? maxRetries - 1 then
              retryLoop up maxRetries fuel (attempt + 1) lastError isRateLimited
                (sleep 1000 w)
            else Some (Failed networkMessage, w)
          else if attempt <? maxRetries - 1 then
            retryLoop up maxRetries fuel (attempt + 1) lastError isRateLimited
              (sleep 1000 w)
          else
            retryLoop up maxRetries fuel (attempt + 1) lastError isRateLimited w in
        match settled with
        | Completion (Some ((_ :: _) as response)) => Some (Returned response, w)
        | Completion _ =>
            catch {| status := None; message := lit "No response from OpenAI" |}
        | Throws error => catch error
        end
    end
  else Some (allRetriesFailed lastError isRateLimited, w).

(** [generateContent(userMessage, conversationHistory, brandContext,
    maxRetries)] as seen from the upstream: the loop from attempt 0 with
    [lastError = null] and [isRateLimited = false]. *)
Definition generateContent (up : Upstream) (maxRetries : Z) : option (Result * World) :=
  retryLoop up maxRetries (Z.to_nat maxRetries) 0 None false initial.

(** ** Notions used to state the properties of the generator *)

(** The timer waits of a run, in order, and their total (milliseconds). *)
Definition sleeps (evs : list Event) : list Z :=
  flat_map (fun ev => match ev with Sleep ms => [ms] | UpstreamCall => [] end) evs.

Definition totalWait (evs : list Event) : Z := foldr Z.add 0 (sleeps evs).

(** The run of [k] rate-limited attempts, the first one numbered
    [attempt], followed by one more upstream call: each failed attempt is
    followed by its back-off wait. *)
Fixpoint backoffEvents (attempt : Z) (k : nat) : list Event :=
  match k with
  | O => [UpstreamCall]
  | S k => UpstreamCall :: Sleep (2 ^ attempt * 1000) :: backoffEvents (attempt + 1) k
  end.

(** The error an attempt ends with, if it fails: the thrown error, or the
    "No response" error raised for a completion without content. *)
Definition failureOf (settled : UpstreamResult) : option UpstreamError :=
  match settled with
  | Completion (Some (_ :: _)) => None
  | Completion _ => Some {| status := None; message := lit "No response from OpenAI" |}
  | Throws e => Some e
  end.

(** The failure classes of the [catch] block, in the order it tests them. *)
Inductive FailureClass :=
| RateLimited
| Fatal
| ServerError
| NetworkError
| Generic.

Definition classify (e : UpstreamError) : FailureClass :=
  if hasStatus e 429 then RateLimited
  else if hasStatus e 401 || hasStatus e 400 then Fatal
  else if statusAtLeast e 500 then ServerError
  else if includes (lit "fetch") (message e) || includes (lit "network") (message e)
  then NetworkError
  else Generic.

Definition isFatal (e : UpstreamError) : bool :=
  match classify e with Fatal => true | _ => false end.

End Generator.

(** * Client request layer ([ChatClient.sendMessage], src/client/api/chatClient.ts) *)

Module Client.

(** An [Error] object: [name] and [message]. *)
Record JsError := {
  name : jsstring;
  message : jsstring
}.

Definition newError (msg : jsstring) : JsError :=
  {| name := lit "Error"; message := msg |}.

Definition typeError (msg : jsstring) : JsError :=
  {| name := lit "TypeError"; message := msg |}.

(** How one [fetch] settles: a reply with a status and a body for which
    [response.json()] resolves with the parsed JSON value ([inr]) or
    rejects with an error ([inl]: the body is not JSON), a rejection with
    an [Error] (a network failure, or the abort raised by the 30 s timer),
    or a rejection with something that is not an [Error]. *)
Inductive FetchResult :=
| Reply (status : Z) (json : JsError + JsVal)
| RejectsWith (e : JsError)
| RejectsOther.

Abbreviation Network := (nat -> FetchResult).

Inductive Event :=
| FetchCall
| Sleep (ms : Z).

Record World := {
  calls : nat;
  events : list Event
}.

Definition initial : World := {| calls := 0; events := [] |}.

Definition callFetch (net : Network) (w : World) : FetchResult * World :=
  (net (calls w), {| calls := S (calls w); events := events w ++ [FetchCall] |}).

Definition sleep (ms : Z) (w : World) : World :=
  {| calls := calls w; events := events w ++ [Sleep ms] |}.

(** [sendMessage] resolves with the parsed body, whatever JSON value it
    is, or rejects with an [Error]. *)
Inductive Result :=
| Returned (data : JsVal)
| Failed (e : JsError).

Definition API_TIMEOUT : Z := 30000.
Definition maxRetries : Z := 2.

Definition highDemandMessage : jsstring :=
  lit "The service is experiencing high demand. Please wait a moment and try again.".
Definition serverTimeoutMessage : jsstring :=
  lit "Request timed out. The response took longer than expected. Please try again.".
Definition unavailableMessage : jsstring :=
  lit "The service is temporarily unavailable. Please try again in a moment.".
Definition abortMessage : jsstring :=
  lit "Request timed out after 30 seconds. Please try again with a simpler request.".
Definition networkMessage : jsstring :=
  lit "Network error. Please check your internet connection and try again.".
Definition unexpectedMessage : jsstring :=
  lit "An unexpected error occurred. Please try again.".

(** [response.ok] *)
Definition ok (status : Z) : bool := (200 <=? status) && (status <=? 299).

(** [await response.json().catch(() => ({}))] *)
Definition errorDataOf (json : JsError + JsVal) : JsVal :=
  match json with
  | inr v => v
  | inl _ => JObj []
  end.

(** How the [try] block ends: it returns data, it returns the promise of
    the retry (whose rejection the [catch] of this call does not see), or
    it throws into the [catch]. *)
Inductive TryEnd :=
| TryReturn (data : JsVal)
| TryRetry
| TryThrow (e : option JsError).

(** The [try] block after [fetch] has settled. In the branch of a reply
    that is not OK, [errorData.error] is read before the status is looked
    at, and throws a TypeError when the body is the JSON value [null];
    [new Error(errorMessage)] converts a value that is not a string. *)
Definition tryBlock (retryCount : Z) (settled : FetchResult) : TryEnd :=
  match settled with
  | Reply status json =>
      if negb (ok status) then
        let errorData := errorDataOf json in
        match getProp errorData (lit "error") with
        | inl thrown => TryThrow (Some (typeError thrown))
        | inr error =>
            let errorMessage :=
              if truthy error then error
              else JStr (lit "Server error (" ++ numberToString status ++ lit ")") in
            if status =? 429 then TryThrow (Some (newError highDemandMessage))
            else if status =? 408 then TryThrow (Some (newError serverTimeoutMessage))
            else if 500 <=? status then
              if retryCount <? maxRetries then TryRetry
              else TryThrow (Some (newError unavailableMessage))
            else
              match toStringJs errorMessage with
              | Some text => TryThrow (Some (newError text))
              | None =>
                  TryThrow (Some (typeError (lit "Cannot convert object to primitive value")))
              end
        end
      else
        match json with
        | inr data => TryReturn data
        | inl e => TryThrow (Some e)
        end
  | RejectsWith e => TryThrow (Some e)
  | RejectsOther => TryThrow None
  end.

(** [sendMessage(request, retryCount)]. Every call uses one unit of
    [fuel]; [None] is a recursion that ran out of it. *)
Fixpoint sendMessageFrom (net : Network) (fuel : nat) (retryCount : Z) (w : World)
  : option (Result * World) :=
  match fuel with
  | O => None
  | S fuel =>
      let '(settled, w) := callFetch net w in
      let retry (w : World) :=
        sendMessageFrom net fuel (retryCount + 1)
          (sleep (1000 * (retryCount + 1)) w) in
      match tryBlock retryCount settled with
      | TryReturn r => Some (Returned r, w)
      | TryRetry => retry w
      | TryThrow (Some error) =>
          if bool_decide (name error = lit "AbortError") then
            Some (Failed (newError abortMessage), w)
          else if includes (lit "fetch") (message error)
                  || includes (lit "Failed to fetch") (message error) then
            if retryCount <? maxRetries then retry w
            else Some (Failed (newError networkMessage), w)
          else Some (Failed error, w)
      | TryThrow None => Some (Failed (newError unexpectedMessage), w)
      end
  end.

(** [sendMessage(request)] with the default [retryCount = 0]. *)
Definition sendMessage (net : Network) : option (Result * World) :=
  sendMessageFrom net (Z.to_nat (maxRetries + 1)) 0 initial.

End Client.

(** * Further notions and components *)

(** ** The shape of a sanitized message *)

Module SanitizedForm.

(** A code unit that sanitization turns into nothing at the ends of a
    message: white space, or the null character. *)
Definition blank (c : N) : bool := isWhiteSpace c || (c =? NUL)%N.

(** Every white-space code unit is a single space followed by a code unit
    that is not white space. *)
Fixpoint spacedOk (r : jsstring) : bool :=
  match r with
  | [] => true
  | c :: r' =>
      if isWhiteSpace c then
        (c =? SPACE)%N
        && match r' with
           | d :: _ => negb (isWhiteSpace d)
           | [] => false
           end
        && spacedOk r'
      else spacedOk r'
  end.

(** No null character, no white space at either end, and words separated
    by single spaces. *)
Definition isSanitized (r : jsstring) : bool :=
  match r with
  | c :: _ => negb (isWhiteSpace c)
  | [] => true
  end
  && forallb (fun c => negb (c =? NUL)%N) r
  && spacedOk r.

End SanitizedForm.

(** ** Texts of the validation replies of the endpoint *)

Module ServerReplies.

Definition validationMessages : list jsstring :=
  [ lit "Invalid request: message is required and must be a string";
    lit "Invalid request: message cannot be empty";
    lit "Invalid request: message exceeds maximum length of 5000 characters";
    lit "Invalid request: history must be an array";
    lit "Invalid request: history exceeds maximum length of 50 messages";
    lit "Invalid request: history messages must have role and content" ].

End ServerReplies.

(** ** The run of a retried prefix of the generator loop *)

Module GeneratorRuns.
Import Generator.

(** The wait that follows a failed attempt which is not the last one. *)
Definition waitAfter (attempt : Z) (e : UpstreamError) : Z :=
  if hasStatus e 429 then 2 ^ attempt * 1000 else 1000.

(** Calls and waits of consecutive failed attempts, the first one numbered
    [attempt], each followed by its wait. *)
Fixpoint retryEvents (attempt : Z) (failures : list UpstreamError) : list Event :=
  match failures with
  | [] => []
  | e :: rest =>
      UpstreamCall :: Sleep (waitAfter attempt e) :: retryEvents (attempt + 1) rest
  end.

End GeneratorRuns.

(** ** System prompt and message list ([buildSystemPrompt] and the head of
    [generateContent], unnamed/part_000) *)

Module Prompt.

(** A conversation entry as [generateContent] is typed to receive it. *)
Record Message := {
  id : jsstring;
  role : jsstring;
  content : jsstring;
  timestamp : Z
}.

(** An entry of the list sent upstream. *)
Record ChatMessage := {
  cm_role : jsstring;
  cm_content : jsstring
}.

Definition newline : jsstring := [10%N].

Definition defaultPrompt : jsstring :=
  lit "You are Marketing Mavericks, an expert AI marketing assistant. You help businesses and marketers create compelling marketing content, develop strategic campaigns, and optimize their marketing efforts."
  ++ newline ++ newline
  ++ lit "Your capabilities include:" ++ newline
  ++ lit "- Generating blog posts with title, introduction, body sections, and conclusion" ++ newline
  ++ lit "- Creating platform-appropriate social media content (Twitter/X: 280 chars, LinkedIn: 3000 chars, etc.)" ++ newline
  ++ lit "- Writing email marketing copy with subject lines and body content" ++ newline
  ++ lit "- Producing multiple ad copy variations with headlines and descriptions" ++ newline
  ++ lit "- Developing comprehensive campaign strategies with goals, tactics, and channels" ++ newline
  ++ lit "- Suggesting at least 3 distinct campaign ideas with rationale" ++ newline
  ++ lit "- Including recommended content types and distribution channels in strategies"
  ++ newline ++ newline
  ++ lit "Always maintain a professional, creative, and strategic tone.".

(** The line a brand field adds: [if (brandContext.field) prompt += ...],
    nothing for a field that is absent, [undefined] or the empty string. *)
Definition fieldLine (label : jsstring) (brandContext : BrandContext) (key : jsstring)
  : jsstring :=
  match brandContext !! key with
  | Some (FString ((_ :: _) as value)) => newline ++ lit "- " ++ label ++ lit ": " ++ value
  | _ => []
  end.

(** [detectContentTypeAndGetPrompt] (the prompts module) is taken as a
    parameter: what is shown about the default prompt holds whatever that
    function is, whenever it returns no specialized prompt. *)
Definition buildSystemPrompt
    (detectContentTypeAndGetPrompt : jsstring -> option BrandContext -> option jsstring)
    (userMessage : jsstring) (brandContext : option BrandContext) : jsstring :=
  match detectContentTypeAndGetPrompt userMessage brandContext with
  | Some ((_ :: _) as specializedPrompt) => specializedPrompt
  | _ =>
      let prompt := defaultPrompt in
      match brandContext with
      | Some ctx =>
          prompt ++ newline ++ newline ++ lit "Brand Context:"
          ++ fieldLine (lit "Brand Name") ctx (lit "brandName")
          ++ fieldLine (lit "Brand Voice") ctx (lit "brandVoice")
          ++ fieldLine (lit "Target Audience") ctx (lit "targetAudience")
          ++ fieldLine (lit "Industry") ctx (lit "industry")
          ++ newline ++ newline
          ++ lit "Ensure all generated content aligns with this brand context."
      | None => prompt
      end
  end.

(** One turn of the loop over the history:
    [if (msg.role === 'user' || msg.role === 'assistant') messages.push(..)]. *)
Definition pushHistoryEntry (messages : list ChatMessage) (msg : Message)
  : list ChatMessage :=
  if bool_decide (role msg = lit "user") || bool_decide (role msg = lit "assistant")
  then messages ++ [ {| cm_role := role msg; cm_content := content msg |} ]
  else messages.

(** The [messages] array built before the retry loop. *)
Definition buildMessages (systemPrompt : jsstring) (conversationHistory : list Message)
    (userMessage : jsstring) : list ChatMessage :=
  let messages := [ {| cm_role := lit "system"; cm_content := systemPrompt |} ] in
  let messages := foldl pushHistoryEntry messages conversationHistory in
  messages ++ [ {| cm_role := lit "user"; cm_content := userMessage |} ].

End Prompt.

(** ** Input box of the chat interface (src/client/components/InputBox.tsx) *)

Module InputBox.

Definition MAX_MESSAGE_LENGTH : Z := 5000.
Definition MIN_MESSAGE_LENGTH : Z := 1.

Definition validateInput (text : jsstring) : option jsstring :=
  let trimmed := Sanitize.trim text in
  if Z.of_nat (length trimmed) =? 0 then Some (lit "Message cannot be empty")
  else if Z.of_nat (length trimmed) <? MIN_MESSAGE_LENGTH then
    Some (lit "Message is too short")
  else if MAX_MESSAGE_LENGTH <? Z.of_nat (length text) then
    Some (lit "Message is too long (max " ++ numberToString MAX_MESSAGE_LENGTH
          ++ lit " characters)")
  else None.

(** [sanitized.replace(/\0/g, '')] *)
Definition removeNull (s : jsstring) : jsstring :=
  List.filter (fun c => negb (c =? NUL)%N) s.

Definition sanitizeInput (text : jsstring) : jsstring :=
  let sanitized := Sanitize.trim text in
  let sanitized := removeNull sanitized in
  let sanitized := Sanitize.collapseWhitespace sanitized in
  sanitized.

(** The component state that [handleSend] reads and writes. *)
Record State := {
  input : jsstring;
  validationError : option jsstring
}.

(** [handleSend]: the state afterwards and the argument of [onSend], if it
    is called. *)
Definition handleSend (disabled : bool) (st : State) : State * option jsstring :=
  if disabled then (st, None)
  else
    match validateInput (input st) with
    | Some error => ({| input := input st; validationError := Some error |}, None)
    | None =>
        if Z.of_nat (length (Sanitize.trim (input st))) =? 0 then
          ({| input := input st;
              validationError := Some (lit "Message cannot be empty") |}, None)
        else
          let sanitized := sanitizeInput (input st) in
          ({| input := []; validationError := None |}, Some sanitized)
    end.

(** [isInputValid], which enables the Send button. *)
Definition isInputValid (input : jsstring) : bool :=
  (0 <? Z.of_nat (length (Sanitize.trim input)))
  && (Z.of_nat (length input) <=? MAX_MESSAGE_LENGTH).

End InputBox.

(** ** Client-side brand context ([mergeBrandContext], the client's
    contextExtractor module, and the request built by [App.handleSend]) *)

Module ClientContext.

(** The value of [obj.key]: [undefined] for an absent property. *)
Definition field (obj : BrandContext) (key : jsstring) : FieldVal :=
  default FUndefined (obj !! key).

Definition fieldTruthy (v : FieldVal) : bool :=
  match v with
  | FString (_ :: _) => true
  | _ => false
  end.

(** [a || b] *)
Definition orElse (a b : FieldVal) : FieldVal := if fieldTruthy a then a else b.

Definition mergeBrandContext (existing newContext : BrandContext) : BrandContext :=
  <[ lit "brandName" :=
       orElse (field newContext (lit "brandName")) (field existing (lit "brandName")) ]>
  (<[ lit "brandVoice" :=
        orElse (field newContext (lit "brandVoice")) (field existing (lit "brandVoice")) ]>
  (<[ lit "targetAudience" :=
        orElse (field newContext (lit "targetAudience"))
          (field existing (lit "targetAudience")) ]>
  (<[ lit "industry" :=
        orElse (field newContext (lit "industry")) (field existing (lit "industry")) ]>
   ∅))).

(** What [JSON.stringify] and the server's JSON parser leave of a brand
    context: the properties whose value is [undefined] are dropped. *)
Definition overTheWire (ctx : BrandContext) : BrandContext :=
  omap (fun v => match v with FUndefined => None | FString _ => Some v end) ctx.

Definition messageToJson (m : Prompt.Message) : JsVal :=
  JObj [ (lit "id", JStr (Prompt.id m));
         (lit "role", JStr (Prompt.role m));
         (lit "content", JStr (Prompt.content m));
         (lit "timestamp", JNum (Prompt.timestamp m)) ].

(** The request [App.handleSend] passes to [sendMessage], as the endpoint
    parses it: [brandContext] is sent only when [Object.keys(brandContext)]
    is not empty, and no session id is ever sent. *)
Definition requestBody (message : jsstring) (messages : list Prompt.Message)
    (brandContext : BrandContext) : Server.ChatRequest :=
  {| Server.message := JStr message;
     Server.history := JArr (messageToJson <$> messages);
     Server.brandContext :=
       if (0 <? size brandContext)%nat then Some (overTheWire brandContext) else None;
     Server.sessionId := None |}.

End ClientContext.

(** ** A reply of the endpoint as the client's [fetch] sees it *)

Module Transport.

(** [res.json(body)]: the properties that are set, as the client parses
    them back. *)
Definition responseToJson (b : Server.ChatResponse) : JsVal :=
  let property (key : jsstring) (v : option jsstring) :=
    match v with
    | Some text => [(key, JStr text)]
    | None => []
    end in
  JObj (property (lit "response") (Server.response b)
        ++ [(lit "success", JBool (Server.success b))]
        ++ property (lit "error") (Server.error b)
        ++ property (lit "sessionId") (Server.resSessionId b)).

Definition asFetchResult (r : Server.HttpReply) : Client.FetchResult :=
  Client.Reply (Server.status r) (inr (responseToJson (Server.body r))).

End Transport.

(** ** Runs of the client's retry recursion *)

Module ClientRuns.
Import Client.

(** A body from which [errorData.error] can be read: any body but the
    JSON value [null] (a body that is not JSON at all is read as [{}]). *)
Definition readableBody (json : JsError + JsVal) : bool :=
  match errorDataOf json with
  | JNull | JUndefined => false
  | _ => true
  end.

(** An attempt that [sendMessage] retries while its budget lasts: a reply
    with status 500 or more and a readable body, or a rejection of [fetch]
    with an [Error] that is not the abort and whose message contains
    "fetch". *)
Definition transient (settled : FetchResult) : bool :=
  match settled with
  | Reply status json => (500 <=? status) && readableBody json
  | RejectsWith e =>
      negb (bool_decide (name e = lit "AbortError")) && includes (lit "fetch") (message e)
  | RejectsOther => false
  end.

(** An attempt that ends the run with a fixed message: status 429 or
    status 408 with a readable body, or the abort raised by the 30 s
    timer. *)
Definition terminal (settled : FetchResult) : option jsstring :=
  match settled with
  | Reply status json =>
      if negb (readableBody json) then None
      else if status =? 429 then Some highDemandMessage
      else if status =? 408 then Some serverTimeoutMessage
      else None
  | RejectsWith e =>
      if bool_decide (name e = lit "AbortError") then Some abortMessage else None
  | RejectsOther => None
  end.

(** Calls and waits of [k] consecutive retried attempts, the first one
    made with [retryCount]. *)
Fixpoint retryEvents (retryCount : Z) (k : nat) : list Event :=
  match k with
  | O => []
  | S k => FetchCall :: Sleep (1000 * (retryCount + 1)) :: retryEvents (retryCount + 1) k
  end.

Definition totalWait (evs : list Event) : Z :=
  foldr Z.add 0 (flat_map (fun ev => match ev with Sleep ms => [ms] | FetchCall => [] end) evs).

(** The text of an error reply whose [error] property is a string or is
    missing: that string, or "Server error (status)" when it is empty or
    missing. *)
Definition errorTextOf (status : Z) (error : option jsstring) : jsstring :=
  match error with
  | Some ((_ :: _) as text) => text
  | _ => lit "Server error (" ++ numberToString status ++ lit ")"
  end.

(** The [error] property of a body, when it is a string, and [None] when
    the body has none (or is not an object at all). *)
Definition errorProperty (json : JsError + JsVal) : option (option jsstring) :=
  match getProp (errorDataOf json) (lit "error") with
  | inr (JStr text) => Some (Some text)
  | inr JUndefined => Some None
  | _ => None
  end.

End ClientRuns.

(** * Properties *)

(** ** Sanitization *)

Section SanitizeFacts.
Import Sanitize.

#[local] Arguments isWhiteSpace : simpl never.

Example sanitize_null_bytes :
  sanitizeInput (lit "Test" ++ [NUL] ++ lit "message" ++ [NUL] ++ lit "here")
  = lit "Test message here".
Proof. reflexivity. Qed.

Example sanitize_spaces :
  sanitizeInput (lit "  Test    message   with    spaces ")
  = lit "Test message with spaces".
Proof. reflexivity. Qed.

Lemma isWhiteSpace_SPACE : isWhiteSpace SPACE = true.
Proof. reflexivity. Qed.

Lemma trimEnd_snoc s c :
  trimEnd (s ++ [c]) = if isWhiteSpace c then trimEnd s else s ++ [c].
Proof.
  unfold trimEnd. rewrite rev_unit. simpl.
  destruct (isWhiteSpace c); [reflexivity|].
  simpl. now rewrite rev_involutive.
Qed.

Lemma trimEnd_clean s c : last (trimEnd s) = Some c -> isWhiteSpace c = false.
Proof.
  induction s as [|d s IH] using rev_ind; [discriminate|].
  rewrite trimEnd_snoc. destruct (isWhiteSpace d) eqn:Hd; [exact IH|].
  rewrite last_snoc. congruence.
Qed.

Lemma trimEnd_head c r :
  isWhiteSpace c = false -> exists r', trimEnd (c :: r) = c :: r'.
Proof.
  intros Hc. induction r as [|d r IH] using rev_ind.
  - exists []. change [c] with ([] ++ [c]). rewrite trimEnd_snoc, Hc. reflexivity.
  - change (c :: r ++ [d]) with ((c :: r) ++ [d]). rewrite trimEnd_snoc.
    destruct (isWhiteSpace d); [exact IH|]. now exists (r ++ [d]).
Qed.

Lemma trimStart_head s :
  match trimStart s with
  | [] => True
  | c :: _ => isWhiteSpace c = false
  end.
Proof.
  induction s as [|c s IH]; simpl; [exact I|].
  destruct (isWhiteSpace c) eqn:Hc; [exact IH | exact Hc].
Qed.

Lemma trim_head s :
  match trim s with
  | [] => True
  | c :: _ => isWhiteSpace c = false
  end.
Proof.
  unfold trim. pose proof (trimStart_head s) as H.
  destruct (trimStart s) as [|c r]; [exact I|].
  destruct (trimEnd_head c r H) as [r' ->]. exact H.
Qed.

Lemma splitWs_not_nil s : splitWs s <> [].
Proof.
  destruct s as [|c s]; simpl; [discriminate|].
  destruct (isWhiteSpace c); [discriminate|].
  destruct (splitWs s); discriminate.
Qed.

Lemma words_cons_ws c r : isWhiteSpace c = true -> words (c :: r) = words r.
Proof. intros Hc. unfold words. simpl. now rewrite Hc. Qed.

Lemma words_cons_word c r :
  isWhiteSpace c = false ->
  words (c :: r) =
    match r with
    | [] => [[c]]
    | d :: _ =>
        if isWhiteSpace d then [c] :: words r
        else match words r with
             | w :: ws => (c :: w) :: ws
             | [] => [[c]]
             end
    end.
Proof.
  intros Hc. destruct r as [|d r].
  - unfold words. simpl. now rewrite Hc.
  - unfold words. cbn [splitWs]. rewrite Hc.
    destruct (isWhiteSpace d) eqn:Hd; [reflexivity|].
    destruct (splitWs r); reflexivity.
Qed.

Lemma words_trimStart s : words (trimStart s) = words s.
Proof.
  induction s as [|c s IH]; simpl; [reflexivity|].
  destruct (isWhiteSpace c) eqn:Hc; [|reflexivity].
  now rewrite words_cons_ws.
Qed.

Lemma splitWs_snoc_ws s c :
  isWhiteSpace c = true -> splitWs (s ++ [c]) = splitWs s ++ [[]].
Proof.
  intros Hc. induction s as [|a s IH]; simpl.
  - now rewrite Hc.
  - rewrite IH. destruct (isWhiteSpace a); [reflexivity|].
    pose proof (splitWs_not_nil s). destruct (splitWs s); [contradiction|reflexivity].
Qed.

Lemma words_trimEnd s : words (trimEnd s) = words s.
Proof.
  induction s as [|c s IH] using rev_ind; [reflexivity|].
  rewrite trimEnd_snoc. destruct (isWhiteSpace c) eqn:Hc; [|reflexivity].
  rewrite IH. unfold words. rewrite splitWs_snoc_ws by exact Hc.
  rewrite List.filter_app. simpl. now rewrite app_nil_r.
Qed.

Lemma words_trim s : words (trim s) = words s.
Proof. unfold trim. now rewrite words_trimEnd, words_trimStart. Qed.

Lemma joinSpace_cons c w ws : joinSpace ((c :: w) :: ws) = c :: joinSpace (w :: ws).
Proof. destruct ws; reflexivity. Qed.

(** On a string without trailing white space, collapsing the runs gives
    the words joined by single spaces, after one space for a leading run
    that has not been opened yet. *)
Lemma collapseFrom_words u :
  (forall c, last u = Some c -> isWhiteSpace c = false) ->
  collapseFrom true u = joinSpace (words u) /\
  collapseFrom false u =
    match u with
    | [] => []
    | c :: _ =>
        if isWhiteSpace c then SPACE :: joinSpace (words u) else joinSpace (words u)
    end.
Proof.
  induction u as [|c r IH]; intros Hlast; [split; reflexivity|].
  assert (Hr : forall d, last r = Some d -> isWhiteSpace d = false).
  { intros d Hd. apply Hlast. destruct r; [discriminate|]. now rewrite last_cons_cons. }
  destruct (IH Hr) as [IHt IHf]. clear IH.
  destruct (isWhiteSpace c) eqn:Hc.
  - simpl. rewrite Hc, IHt, words_cons_ws by exact Hc. split; reflexivity.
  - assert (Hgoal : c :: collapseFrom false r = joinSpace (words (c :: r))).
    { rewrite IHf, words_cons_word by exact Hc.
      destruct r as [|d r']; [reflexivity|].
      destruct (isWhiteSpace d) eqn:Hd.
      - destruct (words (d :: r')) as [|w ws] eqn:Hw; [|reflexivity].
        exfalso. clear IHt IHf Hlast.
        revert d Hd Hr Hw. induction r' as [|e r' IH]; intros d Hd Hr Hw.
        + specialize (Hr d eq_refl). congruence.
        + rewrite words_cons_ws in Hw by exact Hd.
          destruct (isWhiteSpace e) eqn:He.
          * apply (IH e He); [|exact Hw].
            intros x Hx. apply Hr. now rewrite last_cons_cons.
          * rewrite words_cons_word in Hw by exact He.
            destruct r' as [|f r'']; [discriminate|].
            destruct (isWhiteSpace f); [discriminate|].
            destruct (words (f :: r'')); discriminate.
      - destruct (words (d :: r')) as [|w ws]; [reflexivity|].
        now rewrite joinSpace_cons. }
    simpl. rewrite Hc. split; exact Hgoal.
Qed.

Lemma sanitizeInput_words m : sanitizeInput m = joinSpace (words (replaceNull m)).
Proof.
  unfold sanitizeInput, collapseWhitespace.
  set (t := replaceNull m).
  destruct (collapseFrom_words (trim t)) as [_ H].
  { unfold trim. apply trimEnd_clean. }
  rewrite H. pose proof (trim_head t) as Hh.
  destruct (trim t) as [|c r] eqn:Ht.
  - now rewrite <- (words_trim t), Ht.
  - rewrite Hh, <- Ht. now rewrite words_trim.
Qed.

Lemma splitWs_Forall (P : N -> Prop) s :
  Forall (fun c => isWhiteSpace c = false -> P c) s ->
  Forall (Forall P) (splitWs s).
Proof.
  induction 1 as [|c r Hc _ IH]; simpl; [repeat constructor|].
  destruct (isWhiteSpace c) eqn:E; [constructor; [constructor | exact IH]|].
  destruct (splitWs r) as [|w ws]; [repeat constructor; now apply Hc|].
  inversion IH; subst. constructor; [constructor; [now apply Hc | assumption] | assumption].
Qed.

Lemma words_Forall (P : jsstring -> Prop) s :
  Forall P (splitWs s) -> Forall (fun w => nonEmpty w = true /\ P w) (words s).
Proof.
  unfold words. induction 1 as [|w ws Hw _ IH]; simpl; [constructor|].
  destruct (nonEmpty w) eqn:E; [constructor; [split|]; assumption | exact IH].
Qed.

Lemma joinSpace_Forall (P : N -> Prop) ws :
  P SPACE -> Forall (Forall P) ws -> Forall P (joinSpace ws).
Proof.
  intros Hsp. induction 1 as [|w rest Hw Hrest IH]; simpl; [constructor|].
  destruct rest; [exact Hw|].
  apply Forall_app. split; [exact Hw | constructor; assumption].
Qed.

Lemma splitWs_word w : Forall (fun c => isWhiteSpace c = false) w -> splitWs w = [w].
Proof.
  induction 1 as [|c r Hc _ IH]; simpl; [reflexivity|]. now rewrite Hc, IH.
Qed.

Lemma splitWs_word_app w c x :
  Forall (fun c => isWhiteSpace c = false) w -> isWhiteSpace c = true ->
  splitWs (w ++ c :: x) = w :: splitWs x.
Proof.
  intros Hw Hc. induction Hw as [|a r Ha _ IH]; simpl; [now rewrite Hc|].
  now rewrite Ha, IH.
Qed.

(** Cutting the joined words again gives the words back. *)
Lemma words_joinSpace ws :
  Forall (fun w => nonEmpty w = true /\ Forall (fun c => isWhiteSpace c = false) w) ws ->
  words (joinSpace ws) = ws.
Proof.
  induction 1 as [|w rest [Hne Hw] _ IH]; [reflexivity|].
  destruct rest as [|w2 rest].
  - unfold words. simpl. rewrite splitWs_word by exact Hw. simpl. now rewrite Hne.
  - change (joinSpace (w :: w2 :: rest)) with (w ++ SPACE :: joinSpace (w2 :: rest)).
    unfold words. rewrite splitWs_word_app by (exact Hw || exact isWhiteSpace_SPACE).
    cbn [List.filter]. rewrite Hne. f_equal. exact IH.
Qed.

Lemma replaceNull_id s : Forall (fun c => c <> NUL) s -> replaceNull s = s.
Proof.
  unfold replaceNull. induction 1 as [|c r Hc _ IH]; [reflexivity|].
  rewrite fmap_cons, IH. apply N.eqb_neq in Hc. now rewrite Hc.
Qed.

Lemma replaceNull_no_NUL s : Forall (fun c => c <> NUL) (replaceNull s).
Proof.
  unfold replaceNull. induction s as [|c r IH]; [constructor|].
  rewrite fmap_cons. constructor; [|exact IH].
  destruct (c =? NUL)%N eqn:E; [discriminate | now apply N.eqb_neq].
Qed.

(** Replacing nulls by spaces and cutting at white space cuts the message
    at its separators. *)
Lemma splitWs_replaceNull s : splitWs (replaceNull s) = splitAtSeparators s.
Proof.
  unfold replaceNull. induction s as [|c r IH]; [reflexivity|].
  rewrite fmap_cons. cbn [splitWs splitAtSeparators]. unfold separator.
  destruct (c =? NUL)%N eqn:E; cbn [orb].
  - rewrite isWhiteSpace_SPACE. now rewrite IH.
  - rewrite IH. reflexivity.
Qed.

Lemma sanitizeInput_normalize m : sanitizeInput m = normalize_spec m.
Proof.
  rewrite sanitizeInput_words. unfold normalize_spec, words.
  now rewrite splitWs_replaceNull.
Qed.

Lemma sanitizeInput_no_NUL m : Forall (fun c => c <> NUL) (sanitizeInput m).
Proof.
  rewrite sanitizeInput_words. set (t := replaceNull m).
  apply joinSpace_Forall; [discriminate|].
  assert (H : Forall (Forall (fun c => c <> NUL)) (splitWs t)).
  { apply splitWs_Forall. eapply Forall_impl; [apply replaceNull_no_NUL|]. auto. }
  apply words_Forall in H. eapply Forall_impl; [exact H|]. now intros w [_ Hw].
Qed.

Lemma sanitizeInput_idempotent m : sanitizeInput (sanitizeInput m) = sanitizeInput m.
Proof.
  rewrite (sanitizeInput_words (sanitizeInput m)).
  rewrite replaceNull_id by apply sanitizeInput_no_NUL.
  rewrite (sanitizeInput_words m). f_equal.
  apply words_joinSpace, words_Forall, splitWs_Forall.
  apply Forall_forall. auto.
Qed.

(** C4: [sanitizeInput] computes the normalization of the specification
    (every null character counts as a space, the ends are trimmed, every
    run of white space becomes one space: the words of the message, cut at
    white space and nulls, joined by single spaces); no null character is
    left in the result, and sanitizing a sanitized message changes
    nothing. *)
Theorem sanitizeInput_normalizes_idempotent (m : jsstring) :
  sanitizeInput m = normalize_spec m /\
  Forall (fun c => c <> NUL) (sanitizeInput m) /\
  sanitizeInput (sanitizeInput m) = sanitizeInput m.
Proof.
  split; [apply sanitizeInput_normalize|].
  split; [apply sanitizeInput_no_NUL | apply sanitizeInput_idempotent].
Qed.

(** The theorem at a message with leading blanks, a null between two
    letters, a run of a space, a tab and a null, and a trailing space. *)
Lemma sanitizeInput_normalizes_idempotent_witness :
  let m := lit "  a" ++ [NUL] ++ lit "b " ++ [9%N; NUL] ++ lit "c " in
  normalize_spec m = lit "a b c" /\ sanitizeInput m = lit "a b c".
Proof.
  intros m. split; [reflexivity|].
  rewrite (proj1 (sanitizeInput_normalizes_idempotent m)). reflexivity.
Defined.

End SanitizeFacts.

(** ** Brand-context store *)

Section StoreFacts.
Import BrandContextStore.

Lemma objectSpread_one (o : BrandContext) : objectSpread [o] = o.
Proof. unfold objectSpread. simpl. apply (right_id_L ∅ (∪)). Qed.

Lemma objectSpread_two (a b : BrandContext) : objectSpread [a; b] = b ∪ a.
Proof. unfold objectSpread. simpl. now rewrite (right_id_L ∅ (∪)). Qed.

Lemma get_set (sessionId : jsstring) (context : BrandContext) (contexts : t) :
  get sessionId (set sessionId context contexts) = Some context.
Proof. unfold get, set. now rewrite lookup_insert_eq, !objectSpread_one. Qed.

Lemma get_lookup (sessionId : jsstring) (contexts : t) : get sessionId contexts = contexts !! sessionId.
Proof. unfold get. destruct (contexts !! sessionId); [now rewrite objectSpread_one | reflexivity]. Qed.

Lemma has_set (sessionId : jsstring) (context : BrandContext) (contexts : t) :
  has sessionId (set sessionId context contexts) = true.
Proof. unfold has, set. rewrite lookup_insert_eq. now apply bool_decide_eq_true. Qed.

Example update_merges_fields :
  get (lit "session123")
    (update (lit "session123") {[ lit "targetAudience" := FString (lit "Developers") ]}
       (set (lit "session123")
          (<[ lit "brandName" := FString (lit "TechCorp") ]>
             {[ lit "brandVoice" := FString (lit "Professional") ]}) empty))
  = Some (<[ lit "targetAudience" := FString (lit "Developers") ]>
            (<[ lit "brandName" := FString (lit "TechCorp") ]>
               {[ lit "brandVoice" := FString (lit "Professional") ]})).
Proof.
  rewrite get_lookup. unfold update, set. rewrite lookup_insert_eq. cbn [default].
  rewrite lookup_insert_eq, objectSpread_one, objectSpread_two.
  cbn [default]. now rewrite <- insert_union_singleton_l.
Qed.

Lemma update_merges_fields_from_empty (s : jsstring) (P : BrandContext) :
  exists R, get s (update s P empty) = Some R /\ R = P.
Proof.
  exists P. split; [|reflexivity].
  rewrite get_lookup. unfold update, empty. rewrite lookup_insert_eq, lookup_empty.
  cbn [default]. rewrite objectSpread_two. f_equal. apply (right_id_L ∅ (∪)).
Qed.

(** C8, as stated, fails: a property of the partial record that is present
    with the value [undefined] is copied by the spread and replaces the
    stored field. *)
Lemma update_undefined_field_overwrites :
  let s := lit "session123" in
  let k := lit "brandName" in
  let E : BrandContext := {[ k := FString (lit "TechCorp") ]} in
  let P : BrandContext := {[ k := FUndefined ]} in
  P !! k = Some FUndefined /\
  get s (set s E empty) ≫= (fun R => R !! k) = Some (FString (lit "TechCorp")) /\
  get s (update s P (set s E empty)) ≫= (fun R => R !! k) = Some FUndefined.
Proof.
  intros s k E P. split; [apply lookup_singleton_eq|]. split.
  - rewrite get_set. apply lookup_singleton_eq.
  - rewrite get_lookup. unfold update, set. rewrite !lookup_insert_eq. cbn [default mbind option_bind].
    rewrite objectSpread_one, objectSpread_two.
    apply lookup_union_Some_l, lookup_singleton_eq.
Qed.

(** C8, amended: after [update(s, P)] the record stored for [s] has, for
    every field, the property of [P] when [P] has that property (also when
    its value is [undefined]) and the stored one otherwise; with no record
    for [s] the new record is [P]. *)
Theorem update_merges_present_fields (s : jsstring) (P : BrandContext) (contexts : t) :
  exists R : BrandContext,
    get s (update s P contexts) = Some R /\
    R = match contexts !! s with
        | Some E => P ∪ E
        | None => P
        end /\
    forall k : jsstring,
      R !! k = match P !! k with
               | Some v => Some v
               | None => match contexts !! s with
                         | Some E => E !! k
                         | None => None
                         end
               end.
Proof.
  assert (HR : objectSpread [default ∅ (contexts !! s); P]
               = match contexts !! s with Some E => P ∪ E | None => P end).
  { rewrite objectSpread_two. destruct (contexts !! s); cbn [default]; [reflexivity|].
    apply (right_id_L ∅ (∪)). }
  eexists. split; [|split; [reflexivity|]].
  - rewrite get_lookup. unfold update. rewrite lookup_insert_eq. now rewrite HR.
  - intros k. destruct (contexts !! s) as [E|].
    + rewrite lookup_union. destruct (P !! k), (E !! k); reflexivity.
    + destruct (P !! k); reflexivity.
Qed.

Example update_creates_record :
  get (lit "newsession")
    (update (lit "newsession") {[ lit "brandName" := FString (lit "NewBrand") ]} empty)
  = Some {[ lit "brandName" := FString (lit "NewBrand") ]}.
Proof.
  destruct (update_merges_fields_from_empty (lit "newsession")
              {[ lit "brandName" := FString (lit "NewBrand") ]}) as [R [-> ->]].
  reflexivity.
Qed.

Example delete_reports_presence :
  (delete (lit "session123") (set (lit "session123") ∅ empty)).1 = true /\
  (delete (lit "nonexistent") (set (lit "session123") ∅ empty)).1 = false /\
  size (set (lit "session2") ∅ (set (lit "session1") ∅ empty)) = 2%nat.
Proof. vm_compute. repeat split. Qed.

Lemma update_other (s s' : jsstring) (P : BrandContext) (contexts : t) :
  s <> s' -> update s P contexts !! s' = contexts !! s'.
Proof. intros H. unfold update. now rewrite lookup_insert_ne. Qed.

End StoreFacts.

(** ** Chat endpoint *)

Section ServerFacts.
Import Server.

Example accepts_valid_request :
  reply (chatHandler testEnv
           {| message := JStr (lit "Create a blog post about AI");
              history := JUndefined; brandContext := None; sessionId := None |}
           BrandContextStore.empty)
  = {| status := 200;
       body := {| response := Some (lit "Test marketing response"); success := true;
                  error := None; resSessionId := None |} |}.
Proof. reflexivity. Qed.

Example length_error_text :
  error (body (reply (chatHandler testEnv
                        {| message := JStr (replicate (Z.to_nat 5001) 97%N);
                           history := JUndefined; brandContext := None; sessionId := None |}
                        BrandContextStore.empty)))
  = Some (lit "Invalid request: message exceeds maximum length of 5000 characters").
Proof. vm_compute. reflexivity. Qed.

Example synthesized_session_id :
  newSessionId testEnv = lit "session_1700000000000_4fzyo82mv".
Proof. reflexivity. Qed.

Example rejects_empty_message :
  rejectsWith 400 (lit "message cannot be empty")
    (reply (chatHandler testEnv
              {| message := JStr []; history := JUndefined;
                 brandContext := None; sessionId := None |}
              BrandContextStore.empty)) = true.
Proof. reflexivity. Qed.

Lemma validateRequest_bind req :
  validateRequest req =
    match validateMessage (message req) with
    | Continue sanitizedMessage =>
        match validateHistory (history req) with
        | Continue items => Continue (sanitizedMessage, items)
        | Respond r => Respond r
        | Throw e => Throw e
        end
    | Respond r => Respond r
    | Throw e => Throw e
    end.
Proof.
  unfold validateRequest. destruct (validateMessage (message req)); [|reflexivity..].
  cbn. destruct (validateHistory (history req)); reflexivity.
Qed.

Lemma chatHandler_generates (env : Env) (req : ChatRequest)
    (contexts : BrandContextStore.t) (m : jsstring) (items : list JsVal) :
  validateRequest req = Continue (m, items) ->
  generated (chatHandler env req contexts) =
    [ {| gc_message := m; gc_history := items;
         gc_brandContext :=
           (resolveBrandContext env (brandContext req) (sessionId req) contexts).1.1 |} ] /\
  store (chatHandler env req contexts) =
    (resolveBrandContext env (brandContext req) (sessionId req) contexts).2.
Proof.
  intros H. unfold chatHandler. rewrite H.
  destruct (resolveBrandContext _ _ _ _) as [[c s] st]. split; reflexivity.
Qed.

(** C5: a sanitized message longer than 5000 code units is answered with
    a 400 error mentioning "exceeds maximum length", without any call of
    the generator; a sanitized message of exactly 5000 code units passes
    the length check and, when the history checks pass too, reaches the
    generator. *)
Theorem message_length_limit (env : Env) (req : ChatRequest)
    (contexts : BrandContextStore.t) (m : jsstring) :
  message req = JStr m ->
  (MAX_MESSAGE_LENGTH < Z.of_nat (length (Sanitize.sanitizeInput m)) ->
   rejectsWith 400 (lit "exceeds maximum length") (reply (chatHandler env req contexts)) = true
   /\ generated (chatHandler env req contexts) = []
   /\ store (chatHandler env req contexts) = contexts) /\
  (Z.of_nat (length (Sanitize.sanitizeInput m)) = MAX_MESSAGE_LENGTH ->
   validateMessage (message req) = Continue (Sanitize.sanitizeInput m) /\
   forall items, validateHistory (history req) = Continue items ->
     exists call, generated (chatHandler env req contexts) = [call]
                  /\ gc_message call = Sanitize.sanitizeInput m
                  /\ gc_history call = items).
Proof.
  intros Hm. unfold MAX_MESSAGE_LENGTH. split.
  - intros Hlen. unfold chatHandler. rewrite validateRequest_bind, Hm.
    unfold validateMessage, MAX_MESSAGE_LENGTH.
    destruct (Z.eqb_spec (Z.of_nat (length (Sanitize.sanitizeInput m))) 0) as [E|_]; [lia|].
    destruct (Z.ltb_spec 5000 (Z.of_nat (length (Sanitize.sanitizeInput m)))) as [_|E]; [|lia].
    repeat split. 
  - intros Hlen.
    assert (Hv : validateMessage (message req) = Continue (Sanitize.sanitizeInput m)).
    { rewrite Hm. unfold validateMessage, MAX_MESSAGE_LENGTH. rewrite Hlen. reflexivity. }
    split; [exact Hv|]. intros items Hh.
    assert (Hr : validateRequest req = Continue (Sanitize.sanitizeInput m, items)).
    { now rewrite validateRequest_bind, Hv, Hh. }
    destruct (chatHandler_generates env req contexts _ _ Hr) as [Hg _].
    eexists. split; [exact Hg|]. split; reflexivity.
Qed.

Lemma message_length_limit_witness :
  let long := {| message := JStr (replicate (Z.to_nat 5001) 97%N); history := JUndefined;
                 brandContext := None; sessionId := None |} in
  let full := {| message := JStr (replicate (Z.to_nat 5000) 97%N); history := JUndefined;
                 brandContext := None; sessionId := None |} in
  (rejectsWith 400 (lit "exceeds maximum length")
     (reply (chatHandler testEnv long BrandContextStore.empty)) = true
   /\ generated (chatHandler testEnv long BrandContextStore.empty) = []
   /\ store (chatHandler testEnv long BrandContextStore.empty) = BrandContextStore.empty) /\
  exists call, generated (chatHandler testEnv full BrandContextStore.empty) = [call]
               /\ gc_message call = Sanitize.sanitizeInput (replicate (Z.to_nat 5000) 97%N)
               /\ gc_history call = [].
Proof.
  intros long full. split.
  - apply (message_length_limit testEnv long BrandContextStore.empty (replicate (Z.to_nat 5001) 97%N) eq_refl).
    vm_compute. reflexivity.
  - apply (message_length_limit testEnv full BrandContextStore.empty (replicate (Z.to_nat 5000) 97%N) eq_refl).
    + vm_compute. reflexivity.
    + reflexivity.
Defined.

Lemma validateHistoryItems_readable items :
  forallb readable items = true ->
  validateHistoryItems items =
    if forallb hasRoleAndContent items then Continue tt
    else Respond (errorReply 400
           (lit "Invalid request: history messages must have role and content")).
Proof.
  induction items as [|msg rest IH]; [reflexivity|].
  cbn [forallb]. intros [Hmsg Hrest]%andb_prop. specialize (IH Hrest).
  cbn [validateHistoryItems]. unfold hasRoleAndContent.
  destruct msg as [| |b|z|s|l|props]; try discriminate Hmsg; try reflexivity.
  cbn [getProp entryProp].
  destruct (truthy (lookupProp (lit "role") props)); [|reflexivity].
  cbn [negb andb].
  destruct (lookupProp (lit "content") props) as [| |b|z|s|l|ps]; try reflexivity.
  - destruct b; reflexivity.
  - destruct (z =? 0) eqn:E; cbn [truthy]; rewrite E; reflexivity.
  - destruct s; [reflexivity|]. exact IH.
Qed.

(** C6, as stated, fails: an entry with a non-empty role and the empty
    string as content is a string-content entry, and it is rejected. *)
Lemma empty_content_entry_rejected :
  let entry := JObj [(lit "role", JStr (lit "user")); (lit "content", JStr [])] in
  let req := {| message := JStr (lit "Test message"); history := JArr [entry];
                brandContext := None; sessionId := None |} in
  truthy (entryProp entry (lit "role")) = true /\
  isString (entryProp entry (lit "content")) = true /\
  rejectsWith 400 (lit "history messages must have role and content")
    (reply (chatHandler testEnv req BrandContextStore.empty)) = true /\
  generated (chatHandler testEnv req BrandContextStore.empty) = [].
Proof. repeat split. Qed.

(** C6, amended: for a request that passes checks 1 to 5 and whose history
    entries can all be read, the history is accepted exactly when every
    entry has a truthy role and a content that is a non-empty string;
    otherwise the reply is a 400 error saying that history messages must
    have role and content, and the generator is not called. *)
Theorem history_entries_validated (env : Env) (req : ChatRequest)
    (contexts : BrandContextStore.t) (m : jsstring) (items : list JsVal) :
  validateMessage (message req) = Continue m ->
  history req = JArr items ->
  Z.of_nat (length items) <= MAX_HISTORY_LENGTH ->
  forallb readable items = true ->
  if forallb hasRoleAndContent items
  then exists call, generated (chatHandler env req contexts) = [call]
                    /\ gc_message call = m /\ gc_history call = items
  else rejectsWith 400 (lit "history messages must have role and content")
         (reply (chatHandler env req contexts)) = true
       /\ generated (chatHandler env req contexts) = [].
Proof.
  intros Hm Hh Hlen Hread.
  assert (Hv : validateHistory (history req) =
               if forallb hasRoleAndContent items then Continue items
               else Respond (errorReply 400
                      (lit "Invalid request: history messages must have role and content"))).
  { rewrite Hh. unfold validateHistory.
    destruct (Z.ltb_spec MAX_HISTORY_LENGTH (Z.of_nat (length items))); [lia|].
    rewrite validateHistoryItems_readable by exact Hread.
    destruct (forallb hasRoleAndContent items); reflexivity. }
  destruct (forallb hasRoleAndContent items).
  - assert (Hr : validateRequest req = Continue (m, items)).
    { now rewrite validateRequest_bind, Hm, Hv. }
    destruct (chatHandler_generates env req contexts _ _ Hr) as [Hg _].
    eexists. split; [exact Hg|]. split; reflexivity.
  - unfold chatHandler. rewrite validateRequest_bind, Hm, Hv. split; reflexivity.
Qed.

Lemma history_entries_validated_witness :
  let good := JObj [(lit "role", JStr (lit "user")); (lit "content", JStr (lit "Hello"))] in
  let bad := JObj [(lit "role", JStr (lit "user")); (lit "content", JNum 123)] in
  let req items := {| message := JStr (lit "Test message"); history := JArr items;
                      brandContext := None; sessionId := None |} in
  (exists call, generated (chatHandler testEnv (req [good]) BrandContextStore.empty) = [call]
                /\ gc_message call = lit "Test message" /\ gc_history call = [good]) /\
  (rejectsWith 400 (lit "history messages must have role and content")
     (reply (chatHandler testEnv (req [good; bad]) BrandContextStore.empty)) = true
   /\ generated (chatHandler testEnv (req [good; bad]) BrandContextStore.empty) = []).
Proof.
  intros good bad req. split.
  - refine (history_entries_validated testEnv (req [good]) BrandContextStore.empty
              (lit "Test message") [good] eq_refl eq_refl _ eq_refl).
    vm_compute. discriminate.
  - refine (history_entries_validated testEnv (req [good; bad]) BrandContextStore.empty
              (lit "Test message") [good; bad] eq_refl eq_refl _ eq_refl).
    vm_compute. discriminate.
Defined.

Lemma resolve_context_and_session (env : Env) (C : BrandContext) (s : jsstring)
    (contexts : BrandContextStore.t) :
  s <> [] ->
  resolveBrandContext env (Some C) (Some s) contexts
  = (Some C, Some s, BrandContextStore.set s C contexts).
Proof. intros Hs. destruct s; [contradiction|reflexivity]. Qed.

Lemma resolve_session_only (env : Env) (s : jsstring) (contexts : BrandContextStore.t) :
  s <> [] ->
  resolveBrandContext env None (Some s) contexts
  = (contexts !! s, Some s, contexts).
Proof.
  intros Hs. destruct s as [|c s]; [contradiction|].
  unfold resolveBrandContext.
  change (default [] (Some (c :: s))) with (c :: s).
  cbn [contextGiven sessionGiven negb andb].
  rewrite get_lookup. unfold BrandContextStore.has.
  destruct (contexts !! (c :: s)) eqn:E.
  - rewrite bool_decide_eq_true_2 by eauto. reflexivity.
  - rewrite bool_decide_eq_false_2 by (intros [? ?]; discriminate). reflexivity.
Qed.

Lemma resolve_context_only (env : Env) (C : BrandContext) (sessionId : option jsstring)
    (contexts : BrandContextStore.t) :
  sessionGiven sessionId = false ->
  resolveBrandContext env (Some C) sessionId contexts
  = (Some C, Some (newSessionId env), BrandContextStore.set (newSessionId env) C contexts).
Proof.
  intros Hs. unfold resolveBrandContext.
  change (default ∅ (Some C)) with C.
  cbn [contextGiven negb andb]. now rewrite Hs.
Qed.

(** C3: after a valid request that carries brand context [C] and session
    id [s] (a non-empty string: the handler tests the field by
    truthiness), a valid request with session id [s] and no brand context
    calls the generator with [C] as its brand context. *)
Theorem brand_context_round_trip (env1 env2 : Env) (req1 req2 : ChatRequest)
    (contexts : BrandContextStore.t) (s : jsstring) (C : BrandContext)
    (m1 m2 : jsstring) (h1 h2 : list JsVal) :
  s <> [] ->
  brandContext req1 = Some C -> sessionId req1 = Some s ->
  brandContext req2 = None -> sessionId req2 = Some s ->
  validateRequest req1 = Continue (m1, h1) ->
  validateRequest req2 = Continue (m2, h2) ->
  generated (chatHandler env2 req2 (store (chatHandler env1 req1 contexts)))
  = [ {| gc_message := m2; gc_history := h2; gc_brandContext := Some C |} ].
Proof.
  intros Hs Hc1 Hs1 Hc2 Hs2 Hv1 Hv2.
  destruct (chatHandler_generates env1 req1 contexts _ _ Hv1) as [_ ->].
  destruct (chatHandler_generates env2 req2
              (resolveBrandContext env1 (brandContext req1) (sessionId req1) contexts).2
              _ _ Hv2) as [-> _].
  rewrite Hc1, Hs1, Hc2, Hs2.
  rewrite resolve_context_and_session by exact Hs. cbn [snd].
  rewrite resolve_session_only by exact Hs. cbn [fst].
  unfold BrandContextStore.set. now rewrite lookup_insert_eq, objectSpread_one.
Qed.

Lemma brand_context_round_trip_witness :
  let C : BrandContext :=
    <[ lit "brandName" := FString (lit "TechCorp") ]>
      {[ lit "brandVoice" := FString (lit "Professional") ]} in
  let s := lit "test-session-456" in
  let req1 := {| message := JStr (lit "First message"); history := JUndefined;
                 brandContext := Some C; sessionId := Some s |} in
  let req2 := {| message := JStr (lit "Second message"); history := JUndefined;
                 brandContext := None; sessionId := Some s |} in
  generated (chatHandler testEnv req2
               (store (chatHandler testEnv req1 BrandContextStore.empty)))
  = [ {| gc_message := lit "Second message"; gc_history := [];
         gc_brandContext := Some C |} ].
Proof.
  intros C s req1 req2.
  apply (brand_context_round_trip testEnv testEnv req1 req2 BrandContextStore.empty s C
           (lit "First message") (lit "Second message") [] []);
    solve [discriminate | reflexivity].
Defined.

(** C7, as stated, fails: an empty-object brand context is an object, hence
    truthy. Sent with a session id whose stored context is [C], it replaces
    [C] in the store and is the effective context; sent without a session
    id, a new session id is synthesized and the empty record stored. *)
Lemma empty_brand_context_counts_as_given :
  let C : BrandContext := {[ lit "brandName" := FString (lit "TechCorp") ]} in
  let s := lit "test-session-123" in
  let contexts := BrandContextStore.set s C BrandContextStore.empty in
  let withSession := {| message := JStr (lit "Test message"); history := JUndefined;
                        brandContext := Some ∅; sessionId := Some s |} in
  let withoutSession := {| message := JStr (lit "Test message"); history := JUndefined;
                           brandContext := Some ∅; sessionId := None |} in
  (contexts !! s = Some C /\
   store (chatHandler testEnv withSession contexts) !! s = Some ∅ /\
   generated (chatHandler testEnv withSession contexts)
   = [ {| gc_message := lit "Test message"; gc_history := [];
          gc_brandContext := Some ∅ |} ]) /\
  (resSessionId (body (reply (chatHandler testEnv withoutSession contexts)))
   = Some (lit "session_1700000000000_4fzyo82mv") /\
   store (chatHandler testEnv withoutSession contexts)
     !! lit "session_1700000000000_4fzyo82mv" = Some ∅).
Proof.
  intros C s contexts withSession withoutSession.
  subst withSession withoutSession.
  assert (Hv : forall sid, validateRequest
                 {| message := JStr (lit "Test message"); history := JUndefined;
                    brandContext := Some ∅; sessionId := sid |}
               = Continue (lit "Test message", [])) by reflexivity.
  split; [split; [|split]|split].
  - unfold contexts, BrandContextStore.set. now rewrite lookup_insert_eq, objectSpread_one.
  - destruct (chatHandler_generates testEnv _ contexts _ _ (Hv (Some s))) as [_ ->].
    cbn [brandContext sessionId].
    rewrite resolve_context_and_session by discriminate. cbn [snd].
    unfold BrandContextStore.set. now rewrite lookup_insert_eq, objectSpread_one.
  - destruct (chatHandler_generates testEnv _ contexts _ _ (Hv (Some s))) as [-> _].
    cbn [brandContext sessionId].
    now rewrite resolve_context_and_session by discriminate.
  - unfold chatHandler. rewrite (Hv None). cbn [brandContext sessionId].
    rewrite resolve_context_only by reflexivity. reflexivity.
  - destruct (chatHandler_generates testEnv _ contexts _ _ (Hv None)) as [_ ->].
    cbn [brandContext sessionId].
    rewrite resolve_context_only by reflexivity. cbn [snd].
    unfold BrandContextStore.set.
    change (newSessionId testEnv) with (lit "session_1700000000000_4fzyo82mv").
    now rewrite lookup_insert_eq, objectSpread_one.
Qed.

(** C7, amended: a request that carries the empty-object brand context is
    treated as one that provides a context. With a session id the empty
    record is stored under that id and is the effective context; without
    one, a new session id is synthesized, the empty record is stored under
    it, and a successful reply returns the new id. *)
Theorem empty_brand_context_is_stored (env : Env) (req : ChatRequest)
    (contexts : BrandContextStore.t) (m : jsstring) (items : list JsVal) :
  validateRequest req = Continue (m, items) ->
  brandContext req = Some ∅ ->
  let sid := if sessionGiven (sessionId req) then default [] (sessionId req)
             else newSessionId env in
  let call := {| gc_message := m; gc_history := items; gc_brandContext := Some ∅ |} in
  store (chatHandler env req contexts) = <[sid := ∅]> contexts /\
  generated (chatHandler env req contexts) = [call] /\
  match generate env call with
  | Resolved _ => resSessionId (body (reply (chatHandler env req contexts))) = Some sid
  | _ => success (body (reply (chatHandler env req contexts))) = false
  end.
Proof.
  intros Hv Hc sid call.
  assert (Hres : resolveBrandContext env (brandContext req) (sessionId req) contexts
                 = (Some ∅, Some sid, <[sid := ∅]> contexts)
                 /\ sessionGiven (Some sid) = true).
  { rewrite Hc. subst sid. destruct (sessionGiven (sessionId req)) eqn:Hs.
    - destruct (sessionId req) as [[|c s]|]; try discriminate Hs. cbn [default].
      rewrite resolve_context_and_session by discriminate.
      unfold BrandContextStore.set. now rewrite objectSpread_one.
    - rewrite resolve_context_only by exact Hs.
      unfold BrandContextStore.set. now rewrite objectSpread_one. }
  destruct Hres as [Hres Hgiven].
  unfold chatHandler. rewrite Hv, Hres. fold call. cbn [store generated reply].
  split; [reflexivity|]. split; [reflexivity|].
  destruct (generate env call); cbn [body resSessionId success failureReply errorReply];
    [now rewrite Hgiven | reflexivity..].
Qed.

Lemma empty_brand_context_is_stored_witness :
  let s := lit "test-session-123" in
  let contexts : BrandContextStore.t :=
    {[ s := {[ lit "brandName" := FString (lit "TechCorp") ]} ]} in
  let req := {| message := JStr (lit "Test message"); history := JUndefined;
                brandContext := Some ∅; sessionId := Some s |} in
  let call := {| gc_message := lit "Test message"; gc_history := [];
                 gc_brandContext := Some ∅ |} in
  store (chatHandler testEnv req contexts) = <[s := ∅]> contexts /\
  generated (chatHandler testEnv req contexts) = [call] /\
  resSessionId (body (reply (chatHandler testEnv req contexts))) = Some s.
Proof.
  intros s contexts req call.
  exact (empty_brand_context_is_stored testEnv req contexts (lit "Test message") []
           eq_refl eq_refl).
Defined.

End ServerFacts.

(** ** Content generator *)

Section GeneratorFacts.
Import Generator.

Variable up : Upstream.
Variable maxRetries : Z.

(** The loop never runs out of fuel when it is given one unit per
    remaining attempt. *)
Lemma retryLoop_total fuel : forall attempt lastError isRateLimited w,
  maxRetries - attempt <= Z.of_nat fuel ->
  exists r, retryLoop up maxRetries fuel attempt lastError isRateLimited w = Some r.
Proof.
  induction fuel as [|fuel IH]; intros attempt lastError isRateLimited w Hfuel.
  - cbn. destruct (Z.ltb_spec attempt maxRetries); [lia|eauto].
  - cbn [retryLoop]. destruct (Z.ltb_spec attempt maxRetries); [|eauto].
    unfold callUpstream.
    assert (Hnext : maxRetries - (attempt + 1) <= Z.of_nat fuel) by lia.
    destruct (up (calls w)) as [[[|c text]|]|e];
      repeat match goal with
             | |- exists r, Some _ = Some r => eauto
             | |- exists r, retryLoop _ _ _ _ _ _ _ = Some r => apply IH; exact Hnext
             | |- context [if ?b then _ else _] => destruct b
             end.
Qed.

Theorem generateContent_total : exists r, generateContent up maxRetries = Some r.
Proof. apply retryLoop_total. lia. Qed.

End GeneratorFacts.

Section RateLimitBackoff.
Import Generator.

Variable up : Upstream.
Variable maxRetries : Z.
Variable text : jsstring.
Hypothesis text_not_empty : text <> [].

(** [k] rate-limited attempts followed by a successful one, seen from any
    point of the loop. *)
Lemma retryLoop_rate_limited k : forall fuel attempt lastError isRateLimited w,
  attempt + Z.of_nat k < maxRetries ->
  (k < fuel)%nat ->
  (forall i, (i < k)%nat ->
     exists e, up (calls w + i)%nat = Throws e /\ hasStatus e 429 = true) ->
  up (calls w + k)%nat = Completion (Some text) ->
  retryLoop up maxRetries fuel attempt lastError isRateLimited w
  = Some (Returned text,
          {| calls := calls w + S k; events := events w ++ backoffEvents attempt k |}).
Proof.
  induction k as [|k IH]; intros fuel attempt lastError isRateLimited w Hlt Hfuel Hfail Hok.
  - destruct fuel as [|fuel]; [lia|]. cbn [retryLoop].
    destruct (Z.ltb_spec attempt maxRetries); [|lia].
    unfold callUpstream. rewrite Nat.add_0_r in Hok. rewrite Hok.
    destruct text as [|c t]; [contradiction|].
    do 3 f_equal. cbn [calls]. lia.
  - destruct fuel as [|fuel]; [lia|]. cbn [retryLoop].
    destruct (Z.ltb_spec attempt maxRetries); [|lia].
    unfold callUpstream.
    destruct (Hfail 0%nat ltac:(lia)) as (e & He & H429).
    rewrite Nat.add_0_r in He. rewrite He, H429.
    rewrite IH.
    + cbn [calls events sleep backoffEvents]. do 3 f_equal; [lia|].
      rewrite <- !app_assoc. reflexivity.
    + lia.
    + lia.
    + intros i Hi. cbn [calls sleep]. destruct (Hfail (S i) ltac:(lia)) as (e' & He' & H').
      exists e'. split; [|exact H']. rewrite <- He'. f_equal. lia.
    + cbn [calls sleep]. rewrite <- Hok. f_equal. lia.
Qed.

End RateLimitBackoff.

Section BackoffFacts.
Import Generator.

Lemma sleeps_backoffEvents k : forall attempt,
  0 <= attempt ->
  sleeps (backoffEvents attempt k)
  = (fun i => 2 ^ (attempt + Z.of_nat i) * 1000) <$> seq 0 k.
Proof.
  induction k as [|k IH]; intros attempt Ha; [reflexivity|].
  cbn [backoffEvents sleeps flat_map app]. fold (sleeps (backoffEvents (attempt + 1) k)).
  rewrite IH by lia. cbn [seq fmap list_fmap]. rewrite Z.add_0_r. f_equal.
  rewrite <- seq_shift, <- list_fmap_compose.
  apply list_fmap_ext. intros _ i _. cbn. f_equal. f_equal. lia.
Qed.

Lemma totalWait_backoffEvents k : forall attempt,
  0 <= attempt ->
  totalWait (backoffEvents attempt k) = 2 ^ attempt * (2 ^ Z.of_nat k - 1) * 1000.
Proof.
  induction k as [|k IH]; intros attempt Ha; [cbn; lia|].
  unfold totalWait in *. cbn [backoffEvents sleeps flat_map app foldr].
  fold (sleeps (backoffEvents (attempt + 1) k)). rewrite IH by lia.
  rewrite Nat2Z.inj_succ, Z.pow_succ_r by lia.
  rewrite Z.pow_add_r by lia. change (2 ^ 1) with 2. lia.
Qed.

(** C1: when the first [k] upstream calls fail with status 429, [k] being
    smaller than [maxRetries], and the next call completes with content,
    [generateContent] returns that content after exactly [k + 1] calls;
    the wait after attempt [i] is [2^i] seconds (1 s, 2 s, 4 s, ...) and
    the waits add up to the sum of these. *)
Theorem rate_limit_backoff_then_success (up : Upstream) (maxRetries : Z)
    (k : nat) (text : jsstring) :
  Z.of_nat k < maxRetries ->
  (forall i, (i < k)%nat -> exists e, up i = Throws e /\ hasStatus e 429 = true) ->
  up k = Completion (Some text) ->
  text <> [] ->
  exists w,
    generateContent up maxRetries = Some (Returned text, w) /\
    calls w = S k /\
    events w = backoffEvents 0 k /\
    sleeps (events w) = (fun i => 2 ^ Z.of_nat i * 1000) <$> seq 0 k /\
    totalWait (events w) = foldr Z.add 0 ((fun i => 2 ^ Z.of_nat i * 1000) <$> seq 0 k).
Proof.
  intros Hk Hfail Hok Htext. eexists. split.
  - unfold generateContent.
    apply (retryLoop_rate_limited up maxRetries text Htext k); cbn [calls initial];
      [lia | lia | exact Hfail | exact Hok].
  - cbn [calls events initial app]. split; [reflexivity|]. split; [reflexivity|].
    assert (Hs : sleeps (backoffEvents 0 k) = (fun i => 2 ^ Z.of_nat i * 1000) <$> seq 0 k).
    { rewrite sleeps_backoffEvents by lia. apply list_fmap_ext. intros _ i _. reflexivity. }
    split; [exact Hs|]. unfold totalWait. now rewrite Hs.
Qed.

Lemma rate_limit_backoff_then_success_witness :
  let rateLimitError := {| status := Some 429; message := lit "Rate limit exceeded" |} in
  let up (i : nat) := match i with
                      | 0%nat | 1%nat => Throws rateLimitError
                      | _ => Completion (Some (lit "Test marketing response"))
                      end in
  exists w,
    generateContent up 3 = Some (Returned (lit "Test marketing response"), w) /\
    calls w = 3%nat /\
    events w = [UpstreamCall; Sleep 1000; UpstreamCall; Sleep 2000; UpstreamCall] /\
    sleeps (events w) = [1000; 2000] /\
    totalWait (events w) = 3000.
Proof.
  intros rateLimitError up.
  refine (rate_limit_backoff_then_success up 3 2 (lit "Test marketing response") _ _ _ _).
  - lia.
  - intros i Hi. exists rateLimitError.
    destruct i as [|[|i]]; [split; reflexivity | split; reflexivity | lia].
  - reflexivity.
  - discriminate.
Defined.

(** C2: when the first upstream call fails with status 401,
    [generateContent] fails with the authentication message after that one
    call, without any wait. *)
Theorem auth_failure_is_immediate (up : Upstream) (maxRetries : Z) (e : UpstreamError) :
  0 < maxRetries ->
  up 0%nat = Throws e ->
  status e = Some 401 ->
  generateContent up maxRetries
  = Some (Failed authMessage, {| calls := 1; events := [UpstreamCall] |}) /\
  includes (lit "authentication failed") authMessage = true.
Proof.
  intros Hn Hup He. split; [|reflexivity].
  unfold generateContent. destruct (Z.to_nat maxRetries) as [|fuel] eqn:Hf; [lia|].
  cbn [retryLoop]. destruct (Z.ltb_spec 0 maxRetries); [|lia].
  unfold callUpstream. cbn [calls events initial app]. rewrite Hup.
  unfold hasStatus. rewrite He. reflexivity.
Qed.

Lemma auth_failure_is_immediate_witness :
  generateContent
    (fun _ => Throws {| status := Some 401; message := lit "Incorrect API key provided" |}) 3
  = Some (Failed authMessage, {| calls := 1; events := [UpstreamCall] |}) /\
  includes (lit "authentication failed") authMessage = true.
Proof.
  apply (auth_failure_is_immediate _ 3
           {| status := Some 401; message := lit "Incorrect API key provided" |});
    [lia | reflexivity | reflexivity].
Defined.

End BackoffFacts.

Section Exhaustion.
Import Generator.

Variable up : Upstream.
Variable maxRetries : Z.

Lemma last_cons_nonempty {A} (x : A) (l : list A) : l <> [] -> last (x :: l) = last l.
Proof. destruct l; [contradiction|reflexivity]. Qed.

(** One iteration that fails with error [e], by the class of [e]. *)
Lemma retryLoop_failure_step fuel attempt lastError isRateLimited w e :
  attempt < maxRetries ->
  failureOf (up (calls w)) = Some e ->
  retryLoop up maxRetries (S fuel) attempt lastError isRateLimited w
  = let w1 := {| calls := S (calls w); events := events w ++ [UpstreamCall] |} in
    let again isRateLimited w :=
      retryLoop up maxRetries fuel (attempt + 1) (Some e) isRateLimited w in
    match classify e with
    | RateLimited => again true (sleep (2 ^ attempt * 1000) w1)
    | Fatal =>
        Some (Failed (if hasStatus e 401 then authMessage else invalidRequestMessage), w1)
    | ServerError =>
        if attempt <? maxRetries - 1 then again isRateLimited (sleep 1000 w1)
        else Some (Failed unavailableMessage, w1)
    | NetworkError =>
        if attempt <? maxRetries - 1 then again isRateLimited (sleep 1000 w1)
        else Some (Failed networkMessage, w1)
    | Generic =>
        if attempt <? maxRetries - 1 then again isRateLimited (sleep 1000 w1)
        else again isRateLimited w1
    end.
Proof.
  intros Hlt He. cbn [retryLoop]. destruct (Z.ltb_spec attempt maxRetries); [|lia].
  unfold callUpstream, classify.
  destruct (up (calls w)) as [[[|c t]|]|e']; cbn [failureOf] in He; try discriminate He;
    injection He as <-;
    repeat match goal with
           | |- context [if ?b then _ else _] => destruct b eqn:?; try discriminate
           end; cbn [orb] in *; try discriminate; reflexivity.
Qed.

(** What the loop ends with when every remaining attempt fails with an
    error that is not fatal: the class of the last failure decides, and
    after a rate-limited or generic last failure the rate-limit flag. *)
Lemma retryLoop_exhausts failures : forall fuel attempt lastError isRateLimited w,
  attempt + Z.of_nat (length failures) = maxRetries ->
  (length failures <= fuel)%nat ->
  (forall i e, failures !! i = Some e -> failureOf (up (calls w + i)%nat) = Some e) ->
  forallb (fun e => negb (isFatal e)) failures = true ->
  exists w',
    retryLoop up maxRetries fuel attempt lastError isRateLimited w
    = Some (match last failures with
            | Some e =>
                match classify e with
                | ServerError => Failed unavailableMessage
                | NetworkError => Failed networkMessage
                | _ => allRetriesFailed (Some e)
                         (isRateLimited || existsb (fun e => hasStatus e 429) failures)
                end
            | None => allRetriesFailed lastError isRateLimited
            end, w')
    /\ calls w' = (calls w + length failures)%nat.
Proof.
  induction failures as [|e rest IH];
    intros fuel attempt lastError isRateLimited w Hlen Hfuel Hup Hok.
  - exists w. cbn [length] in Hlen. split; [|cbn; lia].
    destruct fuel; cbn [retryLoop]; destruct (Z.ltb_spec attempt maxRetries);
      try lia; reflexivity.
  - cbn [length] in Hlen, Hfuel. destruct fuel as [|fuel]; [lia|].
    cbn [forallb] in Hok. apply andb_prop in Hok as [Hnf Hok].
    pose proof (Hup 0%nat e eq_refl) as He. rewrite Nat.add_0_r in He.
    rewrite (retryLoop_failure_step fuel attempt lastError isRateLimited w e)
      by (lia || exact He).
    cbv zeta.
    assert (Hnext : forall isRateLimited' evs,
      exists w',
        retryLoop up maxRetries fuel (attempt + 1) (Some e) isRateLimited'
          {| calls := S (calls w); events := evs |}
        = Some (match last rest with
                | Some e =>
                    match classify e with
                    | ServerError => Failed unavailableMessage
                    | NetworkError => Failed networkMessage
                    | _ => allRetriesFailed (Some e)
                             (isRateLimited' || existsb (fun e => hasStatus e 429) rest)
                    end
                | None => allRetriesFailed (Some e) isRateLimited'
                end, w')
        /\ calls w' = (calls w + S (length rest))%nat).
    { intros isRateLimited' evs.
      destruct (IH fuel (attempt + 1) (Some e) isRateLimited'
                  {| calls := S (calls w); events := evs |}) as (w' & Hw' & Hc).
      - lia.
      - lia.
      - intros i x Hx. cbn [calls]. rewrite <- (Hup (S i) x Hx). do 2 f_equal. lia.
      - exact Hok.
      - exists w'. split; [exact Hw'|]. cbn [calls] in Hc. lia. }
    assert (H429 : hasStatus e 429 = match classify e with RateLimited => true | _ => false end).
    { unfold classify. destruct (hasStatus e 429); [reflexivity|].
      repeat match goal with
             | |- context [if ?b then _ else _] => destruct b
             end; reflexivity. }
    unfold isFatal in Hnf. unfold sleep. cbn [calls events length existsb].
    rewrite H429.
    destruct rest as [|e2 rest'].
    + cbn [length] in Hlen. destruct (Z.ltb_spec attempt (maxRetries - 1)); [lia|].
      cbn [last existsb]. rewrite !orb_false_r.
      destruct (classify e); try discriminate Hnf;
        try (eexists; split; [reflexivity|cbn [calls length]; lia]).
      * destruct (Hnext true ((events w ++ [UpstreamCall]) ++ [Sleep (2 ^ attempt * 1000)]))
          as (w' & Hw' & Hc).
        exists w'. rewrite Hw'. cbn [last]. rewrite orb_true_r. now split.
      * destruct (Hnext isRateLimited (events w ++ [UpstreamCall])) as (w' & Hw' & Hc).
        exists w'. rewrite Hw'. cbn [last]. rewrite orb_false_r. now split.
    + cbn [length] in Hlen. destruct (Z.ltb_spec attempt (maxRetries - 1)); [|lia].
      rewrite last_cons_nonempty by discriminate.
      destruct (last (e2 :: rest')) as [e'|] eqn:Hl;
        [|apply last_None in Hl; discriminate Hl].
      destruct (classify e); try discriminate Hnf.
      * destruct (Hnext true ((events w ++ [UpstreamCall]) ++ [Sleep (2 ^ attempt * 1000)]))
          as (w' & Hw' & Hc).
        exists w'. rewrite Hw'. rewrite orb_true_r. cbn [orb]. now split.
      * destruct (Hnext isRateLimited ((events w ++ [UpstreamCall]) ++ [Sleep 1000]))
          as (w' & Hw' & Hc).
        exists w'. rewrite Hw'. cbn [orb]. now split.
      * destruct (Hnext isRateLimited ((events w ++ [UpstreamCall]) ++ [Sleep 1000]))
          as (w' & Hw' & Hc).
        exists w'. rewrite Hw'. cbn [orb]. now split.
      * destruct (Hnext isRateLimited ((events w ++ [UpstreamCall]) ++ [Sleep 1000]))
          as (w' & Hw' & Hc).
        exists w'. rewrite Hw'. cbn [orb]. now split.
Qed.

End Exhaustion.

Section ExhaustionFacts.
Import Generator.

(** C10, as stated, fails: after two rate-limited attempts, a third and
    last attempt that fails with a network error raises the network
    message, not the "high demand" message. *)
Lemma rate_limit_then_network_error :
  let rateLimitError := {| status := Some 429; message := lit "Rate limit exceeded" |} in
  let networkError := {| status := None; message := lit "fetch failed" |} in
  let up (i : nat) := match i with
                      | 0%nat | 1%nat => Throws rateLimitError
                      | _ => Throws networkError
                      end in
  hasStatus rateLimitError 429 = true /\
  generateContent up 3
  = Some (Failed networkMessage,
          {| calls := 3;
             events := [UpstreamCall; Sleep 1000; UpstreamCall; Sleep 2000; UpstreamCall] |}) /\
  networkMessage <> rateLimitMessage.
Proof. repeat split. discriminate. Qed.

(** C10, amended: when every one of the [maxRetries] attempts fails with
    an error that is retried (not 401, not 400), the error raised depends
    on the last failure. A last failure with status 500 or more raises the
    "temporarily unavailable" message and a last network failure the
    network message, whatever happened before. After a rate-limited or
    generic last failure, the "high demand" message is raised when some
    attempt was rate-limited, and otherwise the generic "Unable to
    generate content" message with the last error's text. *)
Theorem exhaustion_error_message (up : Upstream) (failures : list UpstreamError) :
  (forall i e, failures !! i = Some e -> failureOf (up i) = Some e) ->
  forallb (fun e => negb (isFatal e)) failures = true ->
  exists w,
    generateContent up (Z.of_nat (length failures))
    = Some (match last failures with
            | Some e =>
                match classify e with
                | ServerError => Failed unavailableMessage
                | NetworkError => Failed networkMessage
                | _ =>
                    if existsb (fun e => hasStatus e 429) failures
                    then Failed rateLimitMessage
                    else Failed (lit "Unable to generate content: "
                                 ++ (if bool_decide (message e = [])
                                     then lit "Unknown error" else message e)
                                 ++ lit ". Please try again.")
                end
            | None => Failed (lit "Unable to generate content: Unknown error. Please try again.")
            end, w)
    /\ calls w = length failures.
Proof.
  intros Hup Hok. unfold generateContent.
  destruct (retryLoop_exhausts up (Z.of_nat (length failures)) failures
              (Z.to_nat (Z.of_nat (length failures))) 0 None false initial)
    as (w & Hw & Hc); [lia | lia | exact Hup | exact Hok |].
  exists w. split; [|exact Hc]. rewrite Hw. cbn [orb].
  destruct (last failures) as [e|]; [|reflexivity].
  destruct (classify e); try reflexivity;
    unfold allRetriesFailed; destruct (existsb _ failures); reflexivity.
Qed.

Lemma exhaustion_error_message_witness :
  let rateLimitError := {| status := Some 429; message := lit "Rate limit exceeded" |} in
  let otherError := {| status := None; message := lit "Unexpected end of JSON input" |} in
  let up (i : nat) := match i with
                      | 0%nat => Throws rateLimitError
                      | _ => Throws otherError
                      end in
  exists w, generateContent up 3 = Some (Failed rateLimitMessage, w) /\ calls w = 3%nat.
Proof.
  intros rateLimitError otherError up.
  refine (exhaustion_error_message up [rateLimitError; otherError; otherError] _ eq_refl).
  intros [|[|[|i]]] e He; inversion He; reflexivity.
Defined.

Example generic_message_without_rate_limit :
  generateContent
    (fun _ => Throws {| status := None; message := lit "Unexpected end of JSON input" |}) 2
  = Some (Failed (lit "Unable to generate content: Unexpected end of JSON input. Please try again."),
          {| calls := 2; events := [UpstreamCall; Sleep 1000; UpstreamCall] |}).
Proof. reflexivity. Qed.

End ExhaustionFacts.

(** ** Client request layer *)

Section ClientFacts.
Import Client ClientRuns.

Lemma getProp_readable (json : JsError + JsVal) :
  readableBody json = true ->
  exists error, getProp (errorDataOf json) (lit "error") = inr error.
Proof.
  unfold readableBody. destruct (errorDataOf json); try discriminate; intros _; cbn; eauto.
Qed.

Lemma ok_false_above (status : Z) : 300 <= status -> ok status = false.
Proof.
  intros Hs. unfold ok. destruct (Z.leb_spec status 299); [lia|]. apply andb_false_r.
Qed.

Lemma tryBlock_server_error (retryCount status : Z) (json : JsError + JsVal) :
  500 <= status -> readableBody json = true ->
  tryBlock retryCount (Reply status json)
  = if retryCount <? maxRetries then TryRetry
    else TryThrow (Some (newError unavailableMessage)).
Proof.
  intros Hs Hb. unfold tryBlock. rewrite ok_false_above by lia. cbn [negb].
  destruct (getProp_readable json Hb) as [error ->].
  destruct (Z.eqb_spec status 429); [lia|].
  destruct (Z.eqb_spec status 408); [lia|].
  destruct (Z.leb_spec 500 status); [reflexivity|lia].
Qed.

(** A reply that is not OK and whose body is the JSON value [null]:
    reading [errorData.error] throws before the status is looked at. *)
Lemma tryBlock_null_body (retryCount status : Z) :
  ok status = false ->
  tryBlock retryCount (Reply status (inr JNull))
  = TryThrow (Some (typeError (lit "Cannot read properties of null (reading 'error')"))).
Proof. intros Hok. unfold tryBlock. rewrite Hok. reflexivity. Qed.

(** The recursion never runs out of fuel when it is given one unit per
    remaining attempt. *)
Lemma sendMessageFrom_total net fuel : forall retryCount w,
  (0 < fuel)%nat ->
  maxRetries - retryCount < Z.of_nat fuel ->
  exists r, sendMessageFrom net fuel retryCount w = Some r.
Proof.
  induction fuel as [|fuel IH]; intros retryCount w Hpos Hfuel; [lia|].
  cbn [sendMessageFrom]. unfold callFetch.
  destruct (tryBlock retryCount (net (calls w))) as [r| |[e|]] eqn:Ht; eauto.
  - unfold tryBlock in Ht.
    assert (retryCount < maxRetries).
    { repeat match type of Ht with
             | match ?x with _ => _ end = _ => destruct x eqn:?; try discriminate Ht
             end.
      now apply Z.ltb_lt. }
    apply IH; lia.
  - repeat match goal with
           | |- context [if ?b then _ else _] => destruct b eqn:?
           end; eauto.
    match goal with H : (retryCount <? maxRetries) = true |- _ => apply Z.ltb_lt in H end.
    apply IH; lia.
Qed.

Theorem sendMessage_total net : exists r, sendMessage net = Some r.
Proof. apply sendMessageFrom_total; unfold maxRetries; lia. Qed.

(** C9: a reply with a status of 500 or more is not always retried. When
    the body of a reply that is not OK is the JSON value [null],
    [sendMessage] fails after that single request with the TypeError
    raised by reading [errorData.error]: no wait, no second attempt, and
    not the "temporarily unavailable" error. *)
Theorem server_error_with_null_body_is_not_retried (net : Network) (status : Z) :
  net 0%nat = Reply status (inr JNull) ->
  ok status = false ->
  sendMessage net
  = Some (Failed (typeError (lit "Cannot read properties of null (reading 'error')")),
          {| calls := 1; events := [FetchCall] |}).
Proof.
  intros Hn Hok. unfold sendMessage. change (Z.to_nat (maxRetries + 1)) with 3%nat.
  cbn [sendMessageFrom callFetch calls events initial app].
  rewrite Hn, tryBlock_null_body by exact Hok. reflexivity.
Qed.

Lemma server_error_with_null_body_is_not_retried_witness :
  sendMessage (fun _ => Reply 500 (inr JNull))
  = Some (Failed (typeError (lit "Cannot read properties of null (reading 'error')")),
          {| calls := 1; events := [FetchCall] |}).
Proof.
  exact (server_error_with_null_body_is_not_retried
           (fun _ => Reply 500 (inr JNull)) 500 eq_refl eq_refl).
Defined.

End ClientFacts.

(** ** Sanitization: length, shape and empty results *)

Section SanitizedFormFacts.
Import Sanitize SanitizedForm.

#[local] Arguments isWhiteSpace : simpl never.

Lemma length_trimStart s : (length (trimStart s) <= length s)%nat.
Proof.
  induction s as [|c s IH]; simpl; [lia|].
  destruct (isWhiteSpace c); simpl; lia.
Qed.

Lemma length_trimEnd s : (length (trimEnd s) <= length s)%nat.
Proof.
  unfold trimEnd. rewrite length_rev.
  pose proof (length_trimStart (rev s)) as H. now rewrite length_rev in H.
Qed.

Lemma length_collapseFrom s : forall b, (length (collapseFrom b s) <= length s)%nat.
Proof.
  induction s as [|c s IH]; intros b; simpl; [lia|].
  destruct (isWhiteSpace c), b; simpl;
    try (specialize (IH true); lia); specialize (IH false); lia.
Qed.

Lemma length_sanitizeInput (m : jsstring) : (length (sanitizeInput m) <= length m)%nat.
Proof.
  unfold sanitizeInput, collapseWhitespace, trim.
  pose proof (length_collapseFrom (trimEnd (trimStart (replaceNull m))) false).
  pose proof (length_trimEnd (trimStart (replaceNull m))).
  pose proof (length_trimStart (replaceNull m)).
  assert (length (replaceNull m) = length m) by (unfold replaceNull; apply length_fmap).
  lia.
Qed.

(** Sanitizing never makes a message longer. *)
Theorem sanitizeInput_length (m : jsstring) :
  (length (sanitizeInput m) <= length m)%nat.
Proof. apply length_sanitizeInput. Qed.

Lemma spacedOk_word w :
  Forall (fun c => isWhiteSpace c = false) w -> spacedOk w = true.
Proof. induction 1 as [|c r Hc _ IH]; simpl; [reflexivity|]. now rewrite Hc. Qed.

Lemma spacedOk_word_app w x :
  Forall (fun c => isWhiteSpace c = false) w -> spacedOk (w ++ x) = spacedOk x.
Proof. induction 1 as [|c r Hc _ IH]; simpl; [reflexivity|]. now rewrite Hc. Qed.

Lemma joinSpace_head ws :
  Forall (fun w => nonEmpty w = true /\ Forall (fun c => isWhiteSpace c = false) w) ws ->
  match joinSpace ws with
  | c :: _ => isWhiteSpace c = false
  | [] => True
  end.
Proof.
  destruct 1 as [|w rest [Hne Hw] _]; [exact I|].
  destruct w as [|c w]; [discriminate|]. inversion Hw; subst.
  destruct rest; assumption.
Qed.

Lemma spacedOk_joinSpace ws :
  Forall (fun w => nonEmpty w = true /\ Forall (fun c => isWhiteSpace c = false) w) ws ->
  spacedOk (joinSpace ws) = true.
Proof.
  induction 1 as [|w rest [Hne Hw] Hrest IH]; [reflexivity|].
  destruct rest as [|w2 rest]; [now apply spacedOk_word|].
  change (joinSpace (w :: w2 :: rest)) with (w ++ SPACE :: joinSpace (w2 :: rest)).
  rewrite spacedOk_word_app by exact Hw.
  pose proof (joinSpace_head (w2 :: rest) Hrest) as Hh.
  cbn [spacedOk]. rewrite isWhiteSpace_SPACE, IH.
  destruct (joinSpace (w2 :: rest)) as [|d r] eqn:E.
  - destruct w2; [destruct (proj1 (Forall_inv Hrest)); discriminate|].
    destruct rest; discriminate E.
  - now rewrite Hh.
Qed.

Lemma words_well_formed s :
  Forall (fun w => nonEmpty w = true /\ Forall (fun c => isWhiteSpace c = false) w)
    (words s).
Proof. apply words_Forall, splitWs_Forall, Forall_forall. auto. Qed.

Lemma forallb_Forall_true {A} (f : A -> bool) (l : list A) :
  forallb f l = true <-> Forall (fun x => f x = true) l.
Proof.
  induction l as [|x l IH]; cbn [forallb].
  - split; [constructor | reflexivity].
  - rewrite andb_true_iff, IH. split.
    + intros [? ?]. now constructor.
    + intros H. now inversion H.
Qed.

Lemma isSanitized_sanitizeInput m : isSanitized (sanitizeInput m) = true.
Proof.
  rewrite sanitizeInput_words. unfold isSanitized.
  set (t := replaceNull m).
  pose proof (joinSpace_head (words t) (words_well_formed t)) as Hh.
  rewrite spacedOk_joinSpace by apply words_well_formed.
  assert (Hn : forallb (fun c => negb (c =? NUL)%N) (joinSpace (words t)) = true).
  { apply forallb_Forall_true.
    apply (joinSpace_Forall (fun c => negb (c =? NUL)%N = true)); [reflexivity|].
    assert (H : Forall (Forall (fun c => negb (c =? NUL)%N = true)) (splitWs t)).
    { apply splitWs_Forall. eapply Forall_impl; [apply replaceNull_no_NUL|].
      intros c Hc _. cbn beta in Hc. apply N.eqb_neq in Hc. now rewrite Hc. }
    apply words_Forall in H. eapply Forall_impl; [exact H|]. now intros w [_ Hw]. }
  rewrite Hn. destruct (joinSpace (words t)); [reflexivity|]. now rewrite Hh.
Qed.

Lemma spacedOk_last r c :
  spacedOk r = true -> last r = Some c -> isWhiteSpace c = false.
Proof.
  induction r as [|d r IH]; [discriminate|]. intros Hs Hl.
  destruct r as [|e r].
  - injection Hl as <-. cbn [spacedOk] in Hs.
    destruct (isWhiteSpace d); [|reflexivity].
    rewrite andb_false_r in Hs. discriminate.
  - rewrite last_cons_cons in Hl. apply IH; [|exact Hl].
    cbn [spacedOk] in Hs. destruct (isWhiteSpace d); [|exact Hs].
    now apply andb_prop in Hs as [_ Hs].
Qed.

Lemma trimEnd_id r :
  (forall c, last r = Some c -> isWhiteSpace c = false) -> trimEnd r = r.
Proof.
  destruct r as [|c r _] using rev_ind; [reflexivity|]. intros H.
  rewrite trimEnd_snoc, (H c); [reflexivity|apply last_snoc].
Qed.

Lemma collapseFrom_id r :
  spacedOk r = true ->
  collapseFrom false r = r /\
  (match r with c :: _ => isWhiteSpace c = false | [] => True end ->
   collapseFrom true r = r).
Proof.
  induction r as [|c r IH]; intros Hs; [split; reflexivity|].
  cbn [spacedOk collapseFrom] in *. destruct (isWhiteSpace c) eqn:Hc.
  - apply andb_prop in Hs as [Hs Hr]. apply andb_prop in Hs as [Hsp Hd].
    apply N.eqb_eq in Hsp. subst c. destruct (IH Hr) as [_ IHt].
    split; [|discriminate].
    rewrite IHt; [reflexivity|]. destruct r; [discriminate|].
    now apply negb_true_iff in Hd.
  - destruct (IH Hs) as [-> _]. split; reflexivity.
Qed.

Lemma sanitizeInput_id r : isSanitized r = true -> sanitizeInput r = r.
Proof.
  unfold isSanitized. intros H. apply andb_prop in H as [H Hs].
  apply andb_prop in H as [Hh Hn].
  unfold sanitizeInput, collapseWhitespace, trim.
  rewrite replaceNull_id.
  2:{ apply forallb_Forall_true in Hn. eapply Forall_impl; [exact Hn|].
      intros c Hx. cbn beta in Hx. apply negb_true_iff in Hx. now apply N.eqb_neq. }
  assert (Ht : trimStart r = r).
  { destruct r as [|c r]; [reflexivity|]. simpl.
    apply negb_true_iff in Hh. now rewrite Hh. }
  rewrite Ht, trimEnd_id by (intros c; now apply spacedOk_last).
  now apply collapseFrom_id.
Qed.

(** X2: the result of sanitization has no null character, no white space
    at its ends, and single spaces between its words; and the messages of
    this shape are exactly the ones sanitization leaves unchanged. *)
Theorem sanitized_messages_are_the_fixed_points (m : jsstring) :
  isSanitized (sanitizeInput m) = true /\
  bool_decide (sanitizeInput m = m) = isSanitized m.
Proof.
  split; [apply isSanitized_sanitizeInput|].
  destruct (isSanitized m) eqn:E.
  - apply bool_decide_eq_true_2. now apply sanitizeInput_id.
  - apply bool_decide_eq_false_2. intros H.
    pose proof (isSanitized_sanitizeInput m) as Hs. rewrite H in Hs. congruence.
Qed.

Lemma words_nil s : bool_decide (words s = []) = forallb isWhiteSpace s.
Proof.
  induction s as [|c s IH]; [reflexivity|].
  cbn [forallb]. destruct (isWhiteSpace c) eqn:Hc.
  - rewrite words_cons_ws by exact Hc. exact IH.
  - rewrite words_cons_word by exact Hc. cbn [andb].
    apply bool_decide_eq_false_2.
    destruct s as [|d s]; [discriminate|].
    destruct (isWhiteSpace d); [discriminate|]. destruct (words (d :: s)); discriminate.
Qed.

Lemma joinSpace_nil ws :
  Forall (fun w => nonEmpty w = true /\ Forall (fun c => isWhiteSpace c = false) w) ws ->
  bool_decide (joinSpace ws = []) = bool_decide (ws = []).
Proof.
  destruct 1 as [|w rest [Hne _] _]; [reflexivity|].
  rewrite (bool_decide_eq_false_2 (w :: rest = [])) by discriminate.
  apply bool_decide_eq_false_2. destruct w; [discriminate|]. destruct rest; discriminate.
Qed.

Lemma forallb_blank m : forallb isWhiteSpace (replaceNull m) = forallb blank m.
Proof.
  unfold replaceNull, blank. induction m as [|c m IH]; [reflexivity|].
  rewrite fmap_cons. cbn [forallb]. rewrite IH. f_equal.
  destruct (c =? NUL)%N; [now rewrite orb_true_r | now rewrite orb_false_r].
Qed.

Lemma sanitizeInput_nil m : bool_decide (sanitizeInput m = []) = forallb blank m.
Proof.
  rewrite sanitizeInput_words.
  rewrite joinSpace_nil by apply words_well_formed.
  now rewrite words_nil, forallb_blank.
Qed.

End SanitizedFormFacts.

(** ** Brand-context store: the other operations *)

Section StoreOperations.
Import BrandContextStore.

Lemma has_lookup (s : jsstring) (contexts : t) :
  has s contexts = bool_decide (is_Some (contexts !! s)).
Proof. reflexivity. Qed.

(** X3: [set] then [get] gives the stored record back under the same
    session id and leaves every other session as it was; [has] agrees
    with [get]. *)
Theorem set_get_round_trip (s s' : jsstring) (context : BrandContext) (contexts : t) :
  get s' (set s context contexts)
  = (if decide (s = s') then Some context else get s' contexts) /\
  has s' contexts = bool_decide (is_Some (get s' contexts)).
Proof.
  split.
  - rewrite !get_lookup. unfold set. rewrite objectSpread_one.
    destruct (decide (s = s')) as [->|Hne];
      [apply lookup_insert_eq | now apply lookup_insert_ne].
  - now rewrite get_lookup.
Qed.

(** X4: [delete] reports whether the session existed, removes exactly
    that session, and lowers the size by one when it existed. *)
Theorem delete_removes_one_session (s : jsstring) (contexts : t) :
  (delete s contexts).1 = has s contexts /\
  (forall s', get s' (delete s contexts).2
              = if decide (s = s') then None else get s' contexts) /\
  size (delete s contexts).2
  = (size contexts - (if has s contexts then 1 else 0))%nat.
Proof.
  unfold delete, size, has. cbn [fst snd]. split; [reflexivity|]. split.
  - intros s'. rewrite !get_lookup.
    destruct (decide (s = s')) as [->|Hne];
      [apply lookup_delete_eq | now apply lookup_delete_ne].
  - destruct (contexts !! s) as [c|] eqn:E.
    + rewrite bool_decide_eq_true_2 by eauto.
      rewrite map_size_delete, E. lia.
    + rewrite bool_decide_eq_false_2 by (intros [? ?]; discriminate).
      rewrite map_size_delete, E. cbn. lia.
Qed.

(** [size] counts the sessions: [set] adds one exactly when the
    session is new, and [clear] leaves none. *)
Theorem size_counts_sessions (s : jsstring) (context : BrandContext) (contexts : t) :
  size (set s context contexts)
  = (if has s contexts then size contexts else S (size contexts)) /\
  size (clear contexts) = 0%nat /\
  (forall s', has s' (clear contexts) = false).
Proof.
  unfold size, set, has, clear. split; [|split].
  - destruct (contexts !! s) as [c|] eqn:E.
    + rewrite bool_decide_eq_true_2 by eauto.
      rewrite map_size_insert, E. reflexivity.
    + rewrite bool_decide_eq_false_2 by (intros [? ?]; discriminate).
      rewrite map_size_insert, E. reflexivity.
  - apply map_size_empty.
  - intros s'. apply bool_decide_eq_false_2. rewrite lookup_empty. intros [? ?]; discriminate.
Qed.

(** X5: two updates of a session amount to one update with the second
    partial record laid over the first, and an update after [set] stores
    the partial record laid over the record that was set. *)
Theorem update_composes (s : jsstring) (P1 P2 C : BrandContext) (contexts : t) :
  update s P2 (update s P1 contexts) = update s (P2 ∪ P1) contexts /\
  get s (update s P1 (set s C contexts)) = Some (P1 ∪ C).
Proof.
  split.
  - unfold update. rewrite lookup_insert_eq. cbn [default].
    rewrite insert_insert_eq, !objectSpread_two. unfold id.
    now rewrite (assoc_L (∪)).
  - rewrite get_lookup. unfold update, set.
    rewrite !lookup_insert_eq. cbn [default].
    now rewrite objectSpread_one, objectSpread_two.
Qed.

End StoreOperations.

(** ** Chat endpoint: validation order, replies and store effects *)

Section EndpointFacts.
Import Server ServerReplies SanitizedForm.

Lemma validateMessage_continue (v : JsVal) (m : jsstring) :
  validateMessage v = Continue m ->
  exists raw, v = JStr raw /\ m = Sanitize.sanitizeInput raw /\ m <> []
              /\ Z.of_nat (length m) <= MAX_MESSAGE_LENGTH.
Proof.
  unfold validateMessage. destruct v as [| |b|z|raw|l|ps]; try discriminate.
  destruct (Z.eqb_spec (Z.of_nat (length (Sanitize.sanitizeInput raw))) 0); [discriminate|].
  destruct (Z.ltb_spec MAX_MESSAGE_LENGTH (Z.of_nat (length (Sanitize.sanitizeInput raw))));
    [discriminate|].
  intros [= <-]. exists raw. repeat split; [|assumption].
  intros E. rewrite E in *. cbn in *. lia.
Qed.

Lemma validateMessage_respond (v : JsVal) (r : HttpReply) :
  validateMessage v = Respond r ->
  exists msg, In msg (firstn 3 validationMessages) /\ r = errorReply 400 msg.
Proof.
  unfold validateMessage.
  destruct v as [| |b|z|raw|l|ps];
    try (intros [= <-]; eexists; split; [left; reflexivity | reflexivity]).
  destruct (Z.of_nat (length (Sanitize.sanitizeInput raw)) =? 0).
  - intros [= <-]. eexists. split; [right; left; reflexivity | reflexivity].
  - destruct (MAX_MESSAGE_LENGTH <? Z.of_nat (length (Sanitize.sanitizeInput raw)));
      [|discriminate].
    intros [= <-]. eexists. split; [right; right; left; reflexivity | reflexivity].
Qed.

Lemma validateMessage_no_throw (v : JsVal) (e : Thrown) : validateMessage v <> Throw e.
Proof.
  unfold validateMessage. destruct v; try discriminate.
  repeat match goal with |- context [if ?b then _ else _] => destruct b end; discriminate.
Qed.

Lemma hasRoleAndContent_step (msg : JsVal) (rest : list JsVal) :
  hasRoleAndContent msg = true ->
  validateHistoryItems (msg :: rest) = validateHistoryItems rest.
Proof.
  unfold hasRoleAndContent. intros H. destruct msg as [| |b|z|s|l|props]; try discriminate H.
  cbn [validateHistoryItems getProp entryProp] in *.
  apply andb_prop in H as [Hr Hc]. rewrite Hr. cbn [negb].
  destruct (lookupProp (lit "content") props) as [| |b|z|[|c s]|l|ps]; try discriminate Hc.
  reflexivity.
Qed.

Lemma validateHistoryItems_outcome (items : list JsVal) :
  match validateHistoryItems items with
  | Continue _ => forallb hasRoleAndContent items = true
  | Respond r =>
      r = errorReply 400
            (lit "Invalid request: history messages must have role and content")
  | Throw e =>
      exists pre bad post, items = pre ++ bad :: post
        /\ forallb hasRoleAndContent pre = true /\ readable bad = false
  end.
Proof.
  induction items as [|msg rest IH]; [reflexivity|].
  destruct (hasRoleAndContent msg) eqn:Hm.
  - rewrite hasRoleAndContent_step by exact Hm.
    destruct (validateHistoryItems rest) as [[]|r|e].
    + cbn [forallb]. now rewrite Hm, IH.
    + exact IH.
    + destruct IH as (pre & bad & post & -> & Hpre & Hbad).
      exists (msg :: pre), bad, post. cbn [forallb]. now rewrite Hm, Hpre.
  - unfold hasRoleAndContent in Hm.
    destruct msg as [| |b|z|s|l|props]; cbn [validateHistoryItems getProp negb truthy];
      try reflexivity; try (exists [], JUndefined, rest; now repeat split);
      try (exists [], JNull, rest; now repeat split).
    cbn [entryProp] in Hm.
    destruct (truthy (lookupProp (lit "role") props)); [|reflexivity].
    cbn [negb andb] in *.
    destruct (lookupProp (lit "content") props) as [| |b|z|[|c s]|l|ps];
      try discriminate Hm; try reflexivity.
    + destruct b; reflexivity.
    + cbn [truthy]. destruct (z =? 0); reflexivity.
Qed.

Lemma validateHistory_outcome (h : JsVal) :
  match validateHistory h with
  | Continue items =>
      (h = JUndefined /\ items = [] \/ h = JArr items)
      /\ Z.of_nat (length items) <= MAX_HISTORY_LENGTH
      /\ forallb hasRoleAndContent items = true
  | Respond r =>
      exists msg, In msg (skipn 3 validationMessages) /\ r = errorReply 400 msg
  | Throw e =>
      exists pre bad post, h = JArr (pre ++ bad :: post)
        /\ Z.of_nat (length (pre ++ bad :: post)) <= MAX_HISTORY_LENGTH
        /\ forallb hasRoleAndContent pre = true /\ readable bad = false
  end.
Proof.
  unfold validateHistory.
  destruct h as [| |b|z|s|items|ps];
    try (eexists; split; [left; reflexivity | reflexivity]).
  - split; [left; split; reflexivity|]. split; [unfold MAX_HISTORY_LENGTH; cbn; lia | reflexivity].
  - destruct (Z.ltb_spec MAX_HISTORY_LENGTH (Z.of_nat (length items))).
    + eexists. split; [right; left; reflexivity | reflexivity].
    + pose proof (validateHistoryItems_outcome items) as Hi.
      destruct (validateHistoryItems items) as [[]|r|e]; cbn.
      * split; [now right|]. now split.
      * subst r. eexists. split; [right; right; left; reflexivity | reflexivity].
      * destruct Hi as (pre & bad & post & -> & Hpre & Hbad).
        exists pre, bad, post. now repeat split.
Qed.

(** The three ways the handler can end. *)
Lemma chatHandler_cases (env : Env) (req : ChatRequest) (contexts : BrandContextStore.t) :
  match validateRequest req with
  | Continue (m, items) =>
      let resolved := resolveBrandContext env (brandContext req) (sessionId req) contexts in
      let call := {| gc_message := m; gc_history := items;
                     gc_brandContext := resolved.1.1 |} in
      generated (chatHandler env req contexts) = [call] /\
      store (chatHandler env req contexts) = resolved.2 /\
      reply (chatHandler env req contexts)
      = match generate env call with
        | Resolved text =>
            {| status := 200;
               body := {| response := Some text; success := true; error := None;
                          resSessionId := if sessionGiven resolved.1.2
                                          then resolved.1.2 else None |} |}
        | Rejected e => failureReply e
        | TimedOut => failureReply (ErrorObject (lit "Generation timeout"))
        end
  | Respond r =>
      chatHandler env req contexts
      = {| reply := r; store := contexts; generated := [] |}
  | Throw e =>
      chatHandler env req contexts
      = {| reply := failureReply e; store := contexts; generated := [] |}
  end.
Proof.
  unfold chatHandler. destruct (validateRequest req) as [[m items]|r|e]; try reflexivity.
  destruct (resolveBrandContext _ _ _ _) as [[c s] st]. repeat split.
Qed.

Lemma validateRequest_respond (req : ChatRequest) (r : HttpReply) :
  validateRequest req = Respond r ->
  exists msg, In msg validationMessages /\ r = errorReply 400 msg.
Proof.
  rewrite validateRequest_bind.
  destruct (validateMessage (message req)) as [m|r'|e] eqn:Hm.
  - pose proof (validateHistory_outcome (history req)) as Hh.
    destruct (validateHistory (history req)) as [items|r'|e]; try discriminate.
    intros [= <-]. destruct Hh as (msg & Hin & ->).
    exists msg. split; [|reflexivity].
    change validationMessages with (firstn 3 validationMessages ++ skipn 3 validationMessages).
    apply in_or_app. now right.
  - intros [= <-]. destruct (validateMessage_respond _ _ Hm) as (msg & Hin & ->).
    exists msg. split; [|reflexivity].
    change validationMessages with (firstn 3 validationMessages ++ skipn 3 validationMessages).
    apply in_or_app. now left.
  - discriminate.
Qed.

(** X6: every reply is a success envelope with status 200 and the
    generated text, or an error envelope with status 400 or 500, an error
    text, no response text and no session id. *)
Theorem reply_envelope (env : Env) (req : ChatRequest) (contexts : BrandContextStore.t) :
  let r := reply (chatHandler env req contexts) in
  status r = 200 /\ success (body r) = true
    /\ is_Some (response (body r)) /\ error (body r) = None
  \/ (status r = 400 \/ status r = 500) /\ success (body r) = false
    /\ response (body r) = None /\ is_Some (error (body r))
    /\ resSessionId (body r) = None.
Proof.
  intros r. subst r. pose proof (chatHandler_cases env req contexts) as H.
  destruct (validateRequest req) as [[m items]|r|e] eqn:Hv.
  - cbv zeta in H. destruct H as (_ & _ & ->).
    destruct (generate env _); [left | right | right]; cbn; eauto 10.
  - rewrite H. destruct (validateRequest_respond _ _ Hv) as (msg & _ & ->).
    right. cbn. eauto 10.
  - rewrite H. right. cbn. eauto 10.
Qed.

Lemma rejectsWith_failureReply (frag : jsstring) (e : Thrown) :
  rejectsWith 400 frag (failureReply e) = false.
Proof. reflexivity. Qed.

Lemma chatHandler_generated_status (env : Env) (req : ChatRequest)
    (contexts : BrandContextStore.t) (m : jsstring) (items : list JsVal) :
  validateRequest req = Continue (m, items) ->
  status (reply (chatHandler env req contexts)) = 200
  \/ status (reply (chatHandler env req contexts)) = 500.
Proof.
  intros Hv. pose proof (chatHandler_cases env req contexts) as H. rewrite Hv in H.
  cbv zeta in H. destruct H as (_ & _ & ->).
  destruct (generate env _); [left | right | right]; reflexivity.
Qed.

(** X7: a request answered with status 400 was rejected by validation:
    the error text is one of the six validation texts, the generator was
    not called and the store is unchanged. *)
Theorem rejected_requests_change_nothing (env : Env) (req : ChatRequest)
    (contexts : BrandContextStore.t) :
  status (reply (chatHandler env req contexts)) = 400 ->
  generated (chatHandler env req contexts) = [] /\
  store (chatHandler env req contexts) = contexts /\
  exists msg, In msg validationMessages
              /\ error (body (reply (chatHandler env req contexts))) = Some msg.
Proof.
  intros Hs. pose proof (chatHandler_cases env req contexts) as H.
  destruct (validateRequest req) as [[m items]|r|e] eqn:Hv.
  - destruct (chatHandler_generated_status env req contexts m items Hv); lia.
  - rewrite H. destruct (validateRequest_respond _ _ Hv) as (msg & Hin & ->).
    repeat split. now exists msg.
  - rewrite H in Hs. discriminate Hs.
Qed.

Lemma rejected_requests_change_nothing_witness :
  let req := {| message := JNum 123; history := JUndefined;
                brandContext := Some {[ lit "brandName" := FString (lit "TechCorp") ]};
                sessionId := Some (lit "test-session-123") |} in
  generated (chatHandler testEnv req BrandContextStore.empty) = [] /\
  store (chatHandler testEnv req BrandContextStore.empty) = BrandContextStore.empty /\
  exists msg, In msg validationMessages
              /\ error (body (reply (chatHandler testEnv req BrandContextStore.empty)))
                 = Some msg.
Proof.
  intros req. apply (rejected_requests_change_nothing testEnv req BrandContextStore.empty).
  reflexivity.
Defined.

Lemma validateMessage_string (m : jsstring) :
  validateMessage (JStr m)
  = if bool_decide (Sanitize.sanitizeInput m = []) then
      Respond (errorReply 400 (lit "Invalid request: message cannot be empty"))
    else if MAX_MESSAGE_LENGTH <? Z.of_nat (length (Sanitize.sanitizeInput m)) then
      Respond (errorReply 400
        (lit "Invalid request: message exceeds maximum length of 5000 characters"))
    else Continue (Sanitize.sanitizeInput m).
Proof.
  unfold validateMessage.
  destruct (Sanitize.sanitizeInput m) as [|c r] eqn:E; [reflexivity|].
  rewrite bool_decide_eq_false_2 by discriminate.
  destruct (Z.eqb_spec (Z.of_nat (length (c :: r))) 0) as [H|_]; [cbn in H; lia|].
  reflexivity.
Qed.

(** X8: a string message is answered "message cannot be empty" exactly
    when each of its code units is white space or the null character,
    whatever the other fields of the request are. *)
Theorem blank_messages_are_rejected (env : Env) (m : jsstring) (h : JsVal)
    (b : option BrandContext) (s : option jsstring) (contexts : BrandContextStore.t) :
  rejectsWith 400 (lit "message cannot be empty")
    (reply (chatHandler env
              {| message := JStr m; history := h; brandContext := b; sessionId := s |}
              contexts))
  = forallb blank m.
Proof.
  set (req := {| message := JStr m; history := h; brandContext := b; sessionId := s |}).
  pose proof (chatHandler_cases env req contexts) as H.
  pose proof (validateRequest_bind req) as Hv.
  change (message req) with (JStr m) in Hv. change (history req) with h in Hv.
  rewrite validateMessage_string, sanitizeInput_nil in Hv.
  destruct (forallb blank m).
  - rewrite Hv in H. rewrite H. reflexivity.
  - destruct (MAX_MESSAGE_LENGTH <? Z.of_nat (length (Sanitize.sanitizeInput m))).
    { rewrite Hv in H. rewrite H. reflexivity. }
    pose proof (validateHistory_outcome h) as Hh.
    destruct (validateHistory h) as [items|r|e].
    + destruct (chatHandler_generated_status env req contexts _ _ Hv) as [E|E];
        unfold rejectsWith; rewrite E; reflexivity.
    + rewrite Hv in H. rewrite H. destruct Hh as (msg & Hin & ->).
      cbn in Hin. destruct Hin as [<-|[<-|[<-|[]]]]; reflexivity.
    + rewrite Hv in H. rewrite H. reflexivity.
Qed.

(** X9: with a valid message, a history array is answered "history
    exceeds maximum length" exactly when it has more than 50 entries,
    whatever the entries are; the generator is then not called. *)
Theorem history_length_limit (env : Env) (req : ChatRequest)
    (contexts : BrandContextStore.t) (m : jsstring) (items : list JsVal) :
  validateMessage (message req) = Continue m ->
  history req = JArr items ->
  rejectsWith 400 (lit "history exceeds maximum length")
    (reply (chatHandler env req contexts))
  = (MAX_HISTORY_LENGTH <? Z.of_nat (length items)) /\
  (if MAX_HISTORY_LENGTH <? Z.of_nat (length items)
   then generated (chatHandler env req contexts) = []
   else True).
Proof.
  intros Hm Hh. pose proof (chatHandler_cases env req contexts) as H.
  pose proof (validateRequest_bind req) as Hv. rewrite Hm, Hh in Hv.
  unfold validateHistory in Hv.
  destruct (MAX_HISTORY_LENGTH <? Z.of_nat (length items)).
  - rewrite Hv in H. rewrite H. split; reflexivity.
  - split; [|exact I].
    pose proof (validateHistoryItems_outcome items) as Hi.
    destruct (validateHistoryItems items) as [[]|r|e]; cbn in Hv.
    + destruct (chatHandler_generated_status env req contexts _ _ Hv) as [E|E];
        unfold rejectsWith; rewrite E; reflexivity.
    + rewrite Hv in H. rewrite H. subst r. reflexivity.
    + rewrite Hv in H. rewrite H. reflexivity.
Qed.

Lemma history_length_limit_witness :
  let entry := JObj [(lit "role", JStr (lit "user")); (lit "content", JStr (lit "Test"))] in
  let req n := {| message := JStr (lit "Test message"); history := JArr (replicate n entry);
                  brandContext := None; sessionId := None |} in
  (rejectsWith 400 (lit "history exceeds maximum length")
     (reply (chatHandler testEnv (req 51%nat) BrandContextStore.empty)) = true
   /\ generated (chatHandler testEnv (req 51%nat) BrandContextStore.empty) = []) /\
  rejectsWith 400 (lit "history exceeds maximum length")
    (reply (chatHandler testEnv (req 50%nat) BrandContextStore.empty)) = false.
Proof.
  intros entry req. split.
  - exact (history_length_limit testEnv (req 51%nat) BrandContextStore.empty
             (lit "Test message") (replicate 51 entry) eq_refl eq_refl).
  - exact (proj1 (history_length_limit testEnv (req 50%nat) BrandContextStore.empty
                    (lit "Test message") (replicate 50 entry) eq_refl eq_refl)).
Defined.

Lemma validateHistoryItems_unreadable (pre post : list JsVal) (bad : JsVal) :
  forallb hasRoleAndContent pre = true ->
  readable bad = false ->
  validateHistoryItems (pre ++ bad :: post)
  = Throw (ErrorObject
             (lit "Cannot read properties of "
              ++ (match bad with JNull => lit "null" | _ => lit "undefined" end)
              ++ lit " (reading 'role')")).
Proof.
  intros Hpre Hbad. induction pre as [|msg pre IH].
  - destruct bad; try discriminate Hbad; reflexivity.
  - cbn [forallb] in Hpre. apply andb_prop in Hpre as [Hm Hpre].
    cbn [app]. rewrite hasRoleAndContent_step by exact Hm. now apply IH.
Qed.

(** X10: with a valid message and at most 50 entries, a history whose
    first entry that fails the check is [null] (or [undefined]) is not
    answered with a 400 validation error: reading its [role] throws, and
    the reply is the 500 error "Failed to generate response: Cannot read
    properties of null ...", with no call of the generator and no change
    of the store. *)
Theorem unreadable_history_entry_gives_500 (env : Env) (req : ChatRequest)
    (contexts : BrandContextStore.t) (m : jsstring) (pre post : list JsVal) (bad : JsVal) :
  validateMessage (message req) = Continue m ->
  history req = JArr (pre ++ bad :: post) ->
  Z.of_nat (length (pre ++ bad :: post)) <= MAX_HISTORY_LENGTH ->
  forallb hasRoleAndContent pre = true ->
  readable bad = false ->
  chatHandler env req contexts
  = {| reply := errorReply 500
                  (lit "Failed to generate response: Cannot read properties of "
                   ++ (match bad with JNull => lit "null" | _ => lit "undefined" end)
                   ++ lit " (reading 'role')");
       store := contexts;
       generated := [] |}.
Proof.
  intros Hm Hh Hlen Hpre Hbad. pose proof (chatHandler_cases env req contexts) as H.
  pose proof (validateRequest_bind req) as Hv. rewrite Hm, Hh in Hv.
  unfold validateHistory in Hv.
  destruct (Z.ltb_spec MAX_HISTORY_LENGTH (Z.of_nat (length (pre ++ bad :: post)))); [lia|].
  rewrite validateHistoryItems_unreadable in Hv by assumption. cbn in Hv.
  rewrite Hv in H. rewrite H. reflexivity.
Qed.

Lemma unreadable_history_entry_gives_500_witness :
  let entry := JObj [(lit "role", JStr (lit "user")); (lit "content", JStr (lit "Hello"))] in
  let req := {| message := JStr (lit "Test message"); history := JArr [entry; JNull];
                brandContext := None; sessionId := None |} in
  chatHandler testEnv req BrandContextStore.empty
  = {| reply := errorReply 500
                  (lit "Failed to generate response: Cannot read properties of null (reading 'role')");
       store := BrandContextStore.empty;
       generated := [] |}.
Proof.
  intros entry req.
  refine (unreadable_history_entry_gives_500 testEnv req BrandContextStore.empty
            (lit "Test message") [entry] [] JNull eq_refl eq_refl _ eq_refl eq_refl).
  vm_compute. discriminate.
Defined.

Lemma resolveBrandContext_store (env : Env) (b : option BrandContext)
    (s : option jsstring) (contexts : BrandContextStore.t) :
  (resolveBrandContext env b s contexts).2
  = match b with
    | Some C =>
        <[ (if sessionGiven s then default [] s else newSessionId env) := C ]> contexts
    | None => contexts
    end.
Proof.
  destruct b as [C|].
  - destruct (sessionGiven s) eqn:Hs.
    + destruct s as [[|c s]|]; try discriminate Hs.
      rewrite resolve_context_and_session by discriminate. cbn [snd default].
      unfold BrandContextStore.set. now rewrite objectSpread_one.
    + rewrite resolve_context_only by exact Hs. cbn [snd].
      unfold BrandContextStore.set. now rewrite objectSpread_one.
  - destruct s as [[|c s]|]; try reflexivity.
    now rewrite resolve_session_only by discriminate.
Qed.

(** X11: the only thing the handler ever does to the store is to put the
    brand context of a valid request under one session id (the request's
    own, or a synthesized one when it has none); this happens before
    generation and whatever generation does. No session is ever removed. *)
Theorem handler_store_effect (env : Env) (req : ChatRequest)
    (contexts : BrandContextStore.t) :
  store (chatHandler env req contexts)
  = match validateRequest req, brandContext req with
    | Continue _, Some C =>
        <[ (if sessionGiven (sessionId req) then default [] (sessionId req)
            else newSessionId env) := C ]> contexts
    | _, _ => contexts
    end /\
  forall s, BrandContextStore.has s contexts = true ->
            BrandContextStore.has s (store (chatHandler env req contexts)) = true.
Proof.
  assert (Hst : store (chatHandler env req contexts)
    = match validateRequest req, brandContext req with
      | Continue _, Some C =>
          <[ (if sessionGiven (sessionId req) then default [] (sessionId req)
              else newSessionId env) := C ]> contexts
      | _, _ => contexts
      end).
  { pose proof (chatHandler_cases env req contexts) as H.
    destruct (validateRequest req) as [[m items]|r|e].
    - cbv zeta in H. destruct H as (_ & -> & _). apply resolveBrandContext_store.
    - now rewrite H.
    - now rewrite H. }
  split; [exact Hst|]. intros s Hs. rewrite Hst. unfold BrandContextStore.has in *.
  apply bool_decide_eq_true_1 in Hs. apply bool_decide_eq_true_2.
  destruct (validateRequest req) as [[m items]|r|e]; try exact Hs.
  destruct (brandContext req) as [C|]; [|exact Hs].
  rewrite lookup_insert. destruct (decide _); eauto.
Qed.

Lemma handler_store_effect_witness :
  let C : BrandContext := {[ lit "brandName" := FString (lit "TechCorp") ]} in
  let contexts := BrandContextStore.set (lit "older-session") C BrandContextStore.empty in
  let req := {| message := JStr (lit "Test message"); history := JUndefined;
                brandContext := Some ∅; sessionId := Some (lit "test-session-123") |} in
  store (chatHandler testEnv req contexts) = <[ lit "test-session-123" := ∅ ]> contexts /\
  BrandContextStore.has (lit "older-session") (store (chatHandler testEnv req contexts))
  = true.
Proof.
  intros C contexts req.
  destruct (handler_store_effect testEnv req contexts) as [Hst Hkeep].
  split; [exact Hst|]. apply Hkeep.
  unfold contexts, BrandContextStore.has, BrandContextStore.set.
  apply bool_decide_eq_true_2. rewrite lookup_insert_eq. eauto.
Defined.

(** When a valid request carries a brand context and generation
    succeeds, the reply returns a session id (the request's own if it has
    one) and the store holds exactly that brand context under it. *)
Theorem context_is_stored_under_returned_session (env : Env) (req : ChatRequest)
    (contexts : BrandContextStore.t) (m text : jsstring) (items : list JsVal)
    (C : BrandContext) :
  validateRequest req = Continue (m, items) ->
  brandContext req = Some C ->
  generate env {| gc_message := m; gc_history := items; gc_brandContext := Some C |}
  = Resolved text ->
  exists sid,
    reply (chatHandler env req contexts)
    = {| status := 200;
         body := {| response := Some text; success := true; error := None;
                    resSessionId := Some sid |} |} /\
    sid = (if sessionGiven (sessionId req) then default [] (sessionId req)
           else newSessionId env) /\
    BrandContextStore.get sid (store (chatHandler env req contexts)) = Some C.
Proof.
  intros Hv Hc Hg. pose proof (chatHandler_cases env req contexts) as H.
  rewrite Hv in H. cbv zeta in H. destruct H as (_ & Hst & Hr).
  rewrite Hst, Hr, Hc. clear Hst Hr.
  eexists. split; [|split; [reflexivity|]].
  - destruct (sessionGiven (sessionId req)) eqn:Hs.
    + destruct (sessionId req) as [[|c s]|]; try discriminate Hs.
      rewrite resolve_context_and_session by discriminate. cbn [fst snd default].
      now rewrite Hg.
    + rewrite resolve_context_only by exact Hs. cbn [fst snd]. now rewrite Hg.
  - rewrite resolveBrandContext_store, get_lookup. apply lookup_insert_eq.
Qed.

Lemma context_is_stored_under_returned_session_witness :
  let C : BrandContext := {[ lit "brandName" := FString (lit "TechCorp") ]} in
  let req := {| message := JStr (lit "Test message"); history := JUndefined;
                brandContext := Some C; sessionId := None |} in
  exists sid,
    reply (chatHandler testEnv req BrandContextStore.empty)
    = {| status := 200;
         body := {| response := Some (lit "Test marketing response"); success := true;
                    error := None; resSessionId := Some sid |} |} /\
    sid = lit "session_1700000000000_4fzyo82mv" /\
    BrandContextStore.get sid (store (chatHandler testEnv req BrandContextStore.empty))
    = Some C.
Proof.
  intros C req.
  exact (context_is_stored_under_returned_session testEnv req BrandContextStore.empty
           (lit "Test message") (lit "Test marketing response") [] C
           eq_refl eq_refl eq_refl).
Defined.

(** A valid request without brand context never writes the store.
    Its effective context is the one stored under its session id, and no
    context when it has no session id or the id is unknown; a successful
    reply echoes the session id of the request. *)
Theorem request_without_context_reads_store (env : Env) (req : ChatRequest)
    (contexts : BrandContextStore.t) (m : jsstring) (items : list JsVal) :
  validateRequest req = Continue (m, items) ->
  brandContext req = None ->
  let effective := if sessionGiven (sessionId req)
                   then BrandContextStore.get (default [] (sessionId req)) contexts
                   else None in
  let call := {| gc_message := m; gc_history := items; gc_brandContext := effective |} in
  store (chatHandler env req contexts) = contexts /\
  generated (chatHandler env req contexts) = [call] /\
  match generate env call with
  | Resolved _ =>
      resSessionId (body (reply (chatHandler env req contexts)))
      = (if sessionGiven (sessionId req) then sessionId req else None)
  | _ => status (reply (chatHandler env req contexts)) = 500
  end.
Proof.
  intros Hv Hc effective call. pose proof (chatHandler_cases env req contexts) as H.
  rewrite Hv in H. cbv zeta in H. destruct H as (Hg & Hst & Hr).
  rewrite Hg, Hst, Hr, Hc. clear Hg Hst Hr. subst call effective.
  destruct (sessionId req) as [[|c s]|]; cbn [sessionGiven].
  - split; [reflexivity|]. split; [reflexivity|].
    cbn. destruct (generate env _); reflexivity.
  - rewrite resolve_session_only by discriminate. cbn [fst snd default].
    rewrite get_lookup. split; [reflexivity|]. split; [reflexivity|].
    destruct (generate env _); reflexivity.
  - split; [reflexivity|]. split; [reflexivity|].
    cbn. destruct (generate env _); reflexivity.
Qed.

Lemma request_without_context_reads_store_witness :
  let req := {| message := JStr (lit "Test message"); history := JUndefined;
                brandContext := None; sessionId := Some (lit "unknown-session") |} in
  let call := {| gc_message := lit "Test message"; gc_history := [];
                 gc_brandContext := None |} in
  store (chatHandler testEnv req BrandContextStore.empty) = BrandContextStore.empty /\
  generated (chatHandler testEnv req BrandContextStore.empty) = [call] /\
  resSessionId (body (reply (chatHandler testEnv req BrandContextStore.empty)))
  = Some (lit "unknown-session").
Proof.
  intros req call.
  exact (request_without_context_reads_store testEnv req BrandContextStore.empty
           (lit "Test message") [] eq_refl eq_refl).
Defined.

(** X12: whatever the request, the generator is called at most once, and
    only with a non-empty sanitized message of at most 5000 code units and
    a history of at most 50 entries that all have a role and a non-empty
    string content. *)
Theorem generator_receives_validated_input (env : Env) (req : ChatRequest)
    (contexts : BrandContextStore.t) :
  (length (generated (chatHandler env req contexts)) <= 1)%nat /\
  Forall (fun call =>
            gc_message call <> []
            /\ Z.of_nat (length (gc_message call)) <= MAX_MESSAGE_LENGTH
            /\ isSanitized (gc_message call) = true
            /\ Z.of_nat (length (gc_history call)) <= MAX_HISTORY_LENGTH
            /\ forallb hasRoleAndContent (gc_history call) = true)
    (generated (chatHandler env req contexts)).
Proof.
  pose proof (chatHandler_cases env req contexts) as H.
  pose proof (validateRequest_bind req) as Hv.
  destruct (validateRequest req) as [[m items]|r|e].
  - cbv zeta in H. destruct H as (-> & _ & _). split; [cbn; lia|].
    constructor; [|constructor]. cbn [gc_message gc_history].
    destruct (validateMessage (message req)) as [m'|r'|e'] eqn:Hm; try discriminate Hv.
    pose proof (validateHistory_outcome (history req)) as Hh.
    destruct (validateHistory (history req)) as [items'|r'|e']; try discriminate Hv.
    injection Hv as <- <-.
    destruct (validateMessage_continue _ _ Hm) as (raw & _ & -> & Hne & Hlen).
    destruct Hh as (_ & Hl & Hi).
    repeat split; try assumption. apply isSanitized_sanitizeInput.
  - rewrite H. split; [cbn; lia | constructor].
  - rewrite H. split; [cbn; lia | constructor].
Qed.

End EndpointFacts.

(** ** Content generator: runs of the retry loop *)

Section GeneratorRunFacts.
Import Generator GeneratorRuns.

Variable up : Upstream.
Variable maxRetries : Z.

Lemma hasStatus_429_classify (e : UpstreamError) :
  hasStatus e 429 = match classify e with RateLimited => true | _ => false end.
Proof.
  unfold classify. destruct (hasStatus e 429); [reflexivity|].
  repeat match goal with |- context [if ?b then _ else _] => destruct b end; reflexivity.
Qed.

(** One iteration whose upstream call succeeds. *)
Lemma retryLoop_success_step fuel attempt lastError isRateLimited w :
  attempt < maxRetries ->
  failureOf (up (calls w)) = None ->
  exists text,
    up (calls w) = Completion (Some text) /\ text <> [] /\
    retryLoop up maxRetries (S fuel) attempt lastError isRateLimited w
    = Some (Returned text,
            {| calls := S (calls w); events := events w ++ [UpstreamCall] |}).
Proof.
  intros Hlt Hf. cbn [retryLoop]. destruct (Z.ltb_spec attempt maxRetries); [|lia].
  unfold callUpstream.
  destruct (up (calls w)) as [[[|c t]|]|e]; try discriminate Hf.
  exists (c :: t). repeat split. discriminate.
Qed.

(** A prefix of failed attempts none of which is the last one: each is
    followed by its wait and the loop goes on. *)
Lemma retryLoop_retries failures : forall fuel attempt lastError isRateLimited w,
  attempt + Z.of_nat (length failures) < maxRetries ->
  forallb (fun e => negb (isFatal e)) failures = true ->
  (forall i e, failures !! i = Some e -> failureOf (up (calls w + i)%nat) = Some e) ->
  retryLoop up maxRetries (length failures + fuel) attempt lastError isRateLimited w
  = retryLoop up maxRetries fuel (attempt + Z.of_nat (length failures))
      (match last failures with Some e => Some e | None => lastError end)
      (isRateLimited || existsb (fun e => hasStatus e 429) failures)
      {| calls := calls w + length failures;
         events := events w ++ retryEvents attempt failures |}.
Proof.
  induction failures as [|e rest IH]; intros fuel attempt lastError isRateLimited w Hlt Hok Hup.
  - cbn [length last existsb retryEvents Nat.add]. rewrite Z.add_0_r, orb_false_r, Nat.add_0_r, app_nil_r.
    destruct w; reflexivity.
  - cbn [length] in Hlt. cbn [forallb] in Hok. apply andb_prop in Hok as [Hnf Hok].
    pose proof (Hup 0%nat e eq_refl) as He. rewrite Nat.add_0_r in He.
    cbn [length Nat.add].
    rewrite (retryLoop_failure_step up maxRetries _ attempt lastError isRateLimited w e)
      by (lia || exact He).
    cbv zeta. destruct (Z.ltb_spec attempt (maxRetries - 1)); [|lia].
    unfold isFatal in Hnf.
    assert (Hgo : forall b' d,
      retryLoop up maxRetries (length rest + fuel) (attempt + 1) (Some e) b'
        (sleep d {| calls := S (calls w); events := events w ++ [UpstreamCall] |})
      = retryLoop up maxRetries fuel (attempt + Z.of_nat (S (length rest)))
          (match last (e :: rest) with Some e => Some e | None => lastError end)
          (b' || existsb (fun e => hasStatus e 429) rest)
          {| calls := calls w + S (length rest);
             events := events w ++ UpstreamCall :: Sleep d :: retryEvents (attempt + 1) rest |}).
    { intros b' d. rewrite IH.
      - cbn [calls events sleep]. f_equal.
        + lia.
        + destruct rest as [|e2 rest']; [reflexivity|]. rewrite last_cons_cons.
          destruct (last (e2 :: rest')) eqn:Hl; [reflexivity|].
          apply last_None in Hl. discriminate Hl.
        + f_equal; [lia|]. rewrite <- !app_assoc. reflexivity.
      - lia.
      - exact Hok.
      - intros i x Hx. cbn [calls sleep]. rewrite <- (Hup (S i) x Hx). do 2 f_equal. lia. }
    cbn [retryEvents existsb]. unfold waitAfter. rewrite hasStatus_429_classify.
    destruct (classify e); try discriminate Hnf; rewrite Hgo;
      rewrite ?orb_true_r, ?orb_false_l; reflexivity.
Qed.

End GeneratorRunFacts.

Section GeneratorRunTheorems.
Import Generator GeneratorRuns.

Lemma fuel_split (maxRetries : Z) (k : nat) :
  Z.of_nat k < maxRetries -> exists fuel, Z.to_nat maxRetries = (k + S fuel)%nat.
Proof. intros H. exists (Z.to_nat maxRetries - S k)%nat. lia. Qed.

(** X13: when the first attempts fail with errors that are retried (rate
    limit, status 500 or more, network, any other error, or a completion
    without content) and the next attempt, still within the budget,
    completes with content, [generateContent] returns that content; each
    failed attempt was followed by its wait (2^i seconds after a 429, one
    second otherwise) and nothing follows the successful call. *)
Theorem retries_then_success (up : Upstream) (maxRetries : Z)
    (failures : list UpstreamError) (text : jsstring) :
  Z.of_nat (length failures) < maxRetries ->
  forallb (fun e => negb (isFatal e)) failures = true ->
  (forall i e, failures !! i = Some e -> failureOf (up i) = Some e) ->
  up (length failures) = Completion (Some text) ->
  text <> [] ->
  generateContent up maxRetries
  = Some (Returned text,
          {| calls := S (length failures);
             events := retryEvents 0 failures ++ [UpstreamCall] |}).
Proof.
  intros Hlt Hok Hup Hs Htext. unfold generateContent.
  destruct (fuel_split maxRetries (length failures) Hlt) as [fuel ->].
  rewrite retryLoop_retries by (assumption || lia).
  cbn [retryLoop]. destruct (Z.ltb_spec (0 + Z.of_nat (length failures)) maxRetries); [|lia].
  unfold callUpstream. cbn [calls events initial Nat.add app]. rewrite Hs.
  destruct text; [contradiction|reflexivity].
Qed.

Lemma retries_then_success_witness :
  let serverError := {| status := Some 503; message := lit "Service Unavailable" |} in
  let rateLimitError := {| status := Some 429; message := lit "Rate limit exceeded" |} in
  let up (i : nat) := match i with
                      | 0%nat => Throws serverError
                      | 1%nat => Throws rateLimitError
                      | _ => Completion (Some (lit "Test marketing response"))
                      end in
  generateContent up 3
  = Some (Returned (lit "Test marketing response"),
          {| calls := 3;
             events := [UpstreamCall; Sleep 1000; UpstreamCall; Sleep 2000; UpstreamCall] |}).
Proof.
  intros serverError rateLimitError up.
  refine (retries_then_success up 3 [serverError; rateLimitError]
            (lit "Test marketing response") _ eq_refl _ eq_refl _).
  - cbn. lia.
  - intros [|[|i]] e He; inversion He; reflexivity.
  - discriminate.
Defined.

(** X14: a failure with status 401 or 400 ends the run at once, also
    after earlier attempts were retried: no wait follows it and no further
    call is made. *)
Theorem fatal_error_stops_retries (up : Upstream) (maxRetries : Z)
    (failures : list UpstreamError) (e : UpstreamError) :
  Z.of_nat (length failures) < maxRetries ->
  forallb (fun e => negb (isFatal e)) failures = true ->
  (forall i e, failures !! i = Some e -> failureOf (up i) = Some e) ->
  failureOf (up (length failures)) = Some e ->
  isFatal e = true ->
  generateContent up maxRetries
  = Some (Failed (if hasStatus e 401 then authMessage else invalidRequestMessage),
          {| calls := S (length failures);
             events := retryEvents 0 failures ++ [UpstreamCall] |}).
Proof.
  intros Hlt Hok Hup He Hf. unfold generateContent.
  destruct (fuel_split maxRetries (length failures) Hlt) as [fuel ->].
  rewrite retryLoop_retries by (assumption || lia).
  rewrite (retryLoop_failure_step up maxRetries fuel _ _ _ _ e) by (cbn [calls initial]; (lia || exact He)).
  cbv zeta. unfold isFatal in Hf. destruct (classify e); try discriminate Hf.
  reflexivity.
Qed.

Lemma fatal_error_stops_retries_witness :
  let serverError := {| status := Some 500; message := lit "Internal error" |} in
  let badRequest := {| status := Some 400; message := lit "Bad request" |} in
  let up (i : nat) := match i with
                      | 0%nat => Throws serverError
                      | _ => Throws badRequest
                      end in
  generateContent up 3
  = Some (Failed invalidRequestMessage,
          {| calls := 2; events := [UpstreamCall; Sleep 1000; UpstreamCall] |}).
Proof.
  intros serverError badRequest up.
  refine (fatal_error_stops_retries up 3 [serverError] badRequest _ eq_refl _ eq_refl eq_refl).
  - cbn. lia.
  - intros [|i] e He; inversion He; reflexivity.
Defined.

(** The whole run when every attempt of the budget fails with a retried
    error: [init] are the failures before the last one. *)
Lemma generateContent_exhaustion_run (up : Upstream) (init : list UpstreamError)
    (lastE : UpstreamError) :
  forallb (fun e => negb (isFatal e)) (init ++ [lastE]) = true ->
  (forall i e, (init ++ [lastE]) !! i = Some e -> failureOf (up i) = Some e) ->
  generateContent up (Z.of_nat (S (length init)))
  = Some (match classify lastE with
          | ServerError => Failed unavailableMessage
          | NetworkError => Failed networkMessage
          | _ => allRetriesFailed (Some lastE)
                   (existsb (fun e => hasStatus e 429) (init ++ [lastE]))
          end,
          {| calls := S (length init);
             events := retryEvents 0 init
                       ++ UpstreamCall
                          :: (if hasStatus lastE 429
                              then [Sleep (2 ^ Z.of_nat (length init) * 1000)] else []) |}).
Proof.
  intros Hok Hup. unfold generateContent.
  rewrite forallb_app in Hok. apply andb_prop in Hok as [Hinit Hlast].
  cbn [forallb] in Hlast. rewrite andb_true_r in Hlast.
  replace (Z.to_nat (Z.of_nat (S (length init)))) with (length init + 1)%nat by lia.
  rewrite retryLoop_retries; [|lia|exact Hinit|].
  2:{ intros i e He. apply Hup. cbn [calls initial Nat.add]. now apply lookup_app_l_Some. }
  assert (He : failureOf (up (length init)) = Some lastE).
  { apply Hup. rewrite lookup_app_r by lia. now rewrite Nat.sub_diag. }
  rewrite (retryLoop_failure_step up _ 0 _ _ _ _ lastE) by (cbn [calls initial]; (lia || exact He)).
  cbv zeta. cbn [calls events initial Nat.add app orb sleep].
  destruct (Z.ltb_spec (0 + Z.of_nat (length init)) (Z.of_nat (S (length init)) - 1)); [lia|].
  rewrite existsb_app. cbn [existsb]. rewrite orb_false_r.
  unfold isFatal in Hlast. rewrite (hasStatus_429_classify lastE).
  rewrite !Z.add_0_l.
  destruct (classify lastE); try discriminate Hlast; cbn [retryLoop];
    try match goal with
        | |- context [?a <? ?b] => destruct (Z.ltb_spec a b); [lia|]
        end;
    unfold sleep; cbn [calls events];
    rewrite ?orb_true_r, ?orb_false_r, <- ?app_assoc; reflexivity.
Qed.

(** When every attempt of the budget fails with a retried error,
    there are exactly [maxRetries] upstream calls; every failed attempt
    but the last is followed by its wait, and the last one is followed by
    a wait only when it was rate-limited. *)
Theorem exhaustion_run (up : Upstream) (init : list UpstreamError) (lastE : UpstreamError) :
  forallb (fun e => negb (isFatal e)) (init ++ [lastE]) = true ->
  (forall i e, (init ++ [lastE]) !! i = Some e -> failureOf (up i) = Some e) ->
  exists msg,
    generateContent up (Z.of_nat (S (length init)))
    = Some (Failed msg,
            {| calls := S (length init);
               events := retryEvents 0 init
                         ++ UpstreamCall
                            :: (if hasStatus lastE 429
                                then [Sleep (2 ^ Z.of_nat (length init) * 1000)]
                                else []) |}).
Proof.
  intros Hok Hup. rewrite (generateContent_exhaustion_run up init lastE Hok Hup).
  destruct (classify lastE); unfold allRetriesFailed;
    try destruct (existsb _ _); eauto.
Qed.

Lemma exhaustion_run_witness :
  let emptyCompletion := {| status := None; message := lit "No response from OpenAI" |} in
  exists msg,
    generateContent (fun _ => Completion None) 3
    = Some (Failed msg,
            {| calls := 3;
               events := [UpstreamCall; Sleep 1000; UpstreamCall; Sleep 1000; UpstreamCall] |}).
Proof.
  intros emptyCompletion.
  refine (exhaustion_run (fun _ => Completion None) [emptyCompletion; emptyCompletion]
            emptyCompletion eq_refl _).
  intros [|[|[|i]]] e He; inversion He; reflexivity.
Defined.

End GeneratorRunTheorems.

Section GeneratorWaits.
Import Generator GeneratorRuns.

Lemma sleeps_app (a b : list Event) : sleeps (a ++ b) = sleeps a ++ sleeps b.
Proof. unfold sleeps. apply flat_map_app. Qed.

Lemma sum_app (a b : list Z) : foldr Z.add 0 (a ++ b) = foldr Z.add 0 a + foldr Z.add 0 b.
Proof. induction a as [|x a IH]; cbn [app foldr]; lia. Qed.

Lemma totalWait_app (a b : list Event) : totalWait (a ++ b) = totalWait a + totalWait b.
Proof. unfold totalWait. now rewrite sleeps_app, sum_app. Qed.

Lemma sleeps_retryEvents (failures : list UpstreamError) : forall attempt,
  sleeps (retryEvents attempt failures)
  = imap (fun i e => waitAfter (attempt + Z.of_nat i) e) failures.
Proof.
  induction failures as [|e rest IH]; intros attempt; [reflexivity|].
  cbn [retryEvents sleeps flat_map app imap]. fold (sleeps (retryEvents (attempt + 1) rest)).
  rewrite IH, Z.add_0_r. f_equal. apply imap_ext. intros i x _. cbn. f_equal. lia.
Qed.

Lemma imap_rate_limited (failures : list UpstreamError) :
  forallb (fun e => hasStatus e 429) failures = true ->
  imap (fun i e => waitAfter (Z.of_nat i) e) failures
  = (fun i => 2 ^ Z.of_nat i * 1000) <$> seq 0 (length failures).
Proof.
  intros H. apply list_eq. intros i.
  rewrite list_lookup_imap, list_lookup_fmap.
  destruct (failures !! i) as [e|] eqn:E.
  - rewrite lookup_seq_lt by (apply lookup_lt_Some in E; exact E). cbn.
    unfold waitAfter. apply forallb_Forall_true in H.
    rewrite (proj1 (Forall_lookup _ _) H i e E). reflexivity.
  - rewrite lookup_seq_ge by (apply lookup_ge_None in E; exact E). reflexivity.
Qed.

Lemma imap_not_rate_limited (failures : list UpstreamError) :
  existsb (fun e => hasStatus e 429) failures = false ->
  imap (fun i e => waitAfter (Z.of_nat i) e) failures = replicate (length failures) 1000.
Proof.
  intros H. apply list_eq. intros i. rewrite list_lookup_imap.
  destruct (failures !! i) as [e|] eqn:E.
  - rewrite (proj2 (lookup_replicate _ _ _ _)) by (split; [reflexivity|apply lookup_lt_Some in E; exact E]).
    cbn. unfold waitAfter. f_equal.
    destruct (hasStatus e 429) eqn:H429; [|reflexivity].
    exfalso. apply not_true_iff_false in H. apply H.
    apply existsb_exists. exists e. split; [|exact H429].
    apply list_elem_of_In. eapply list_elem_of_lookup_2. exact E.
  - symmetry. apply lookup_replicate_None. apply lookup_ge_None in E. lia.
Qed.

Lemma sum_powers (n : nat) :
  foldr Z.add 0 ((fun i => 2 ^ Z.of_nat i * 1000) <$> seq 0 n) = (2 ^ Z.of_nat n - 1) * 1000.
Proof.
  induction n as [|n IH]; [reflexivity|].
  rewrite seq_S, fmap_app, sum_app, IH. cbn [fmap list_fmap foldr Nat.add].
  rewrite Nat2Z.inj_succ, Z.pow_succ_r by lia. lia.
Qed.

Lemma sum_replicate (n : nat) (x : Z) : foldr Z.add 0 (replicate n x) = Z.of_nat n * x.
Proof. induction n as [|n IH]; cbn [replicate foldr]; lia. Qed.

(** X15: when every attempt of the budget is rate-limited, the run fails
    with the "high demand" message after [maxRetries] calls; a wait of
    2^i seconds follows every attempt, the last one included, so the run
    waits 2^maxRetries - 1 seconds in total. *)
Theorem rate_limit_exhaustion (up : Upstream) (failures : list UpstreamError) :
  failures <> [] ->
  forallb (fun e => hasStatus e 429) failures = true ->
  (forall i e, failures !! i = Some e -> up i = Throws e) ->
  exists w,
    generateContent up (Z.of_nat (length failures)) = Some (Failed rateLimitMessage, w) /\
    calls w = length failures /\
    sleeps (events w) = (fun i => 2 ^ Z.of_nat i * 1000) <$> seq 0 (length failures) /\
    totalWait (events w) = (2 ^ Z.of_nat (length failures) - 1) * 1000.
Proof.
  intros Hne H429 Hup.
  assert (Hsl : sleeps (retryEvents 0 failures)
                = (fun i => 2 ^ Z.of_nat i * 1000) <$> seq 0 (length failures)).
  { rewrite sleeps_retryEvents. now apply imap_rate_limited. }
  destruct failures as [|lastE init _] using rev_ind; [contradiction|].
  rewrite forallb_app in H429. apply andb_prop in H429 as [Hinit Hlast].
  cbn [forallb] in Hlast. rewrite andb_true_r in Hlast.
  rewrite length_app. cbn [length]. rewrite Nat.add_1_r.
  assert (Hc : classify lastE = RateLimited).
  { rewrite hasStatus_429_classify in Hlast.
    destruct (classify lastE); (discriminate || reflexivity). }
  eexists. split; [|split; [|split]].
  - rewrite (generateContent_exhaustion_run up init lastE).
    + rewrite Hc, existsb_app. cbn [existsb]. rewrite Hlast. cbn [orb].
      now rewrite orb_true_r.
    + apply forallb_Forall_true. apply Forall_app. split.
      * apply forallb_Forall_true in Hinit. eapply Forall_impl; [exact Hinit|].
        intros e He. cbn beta in *. unfold isFatal. rewrite hasStatus_429_classify in He.
        destruct (classify e); (discriminate || reflexivity).
      * repeat constructor. unfold isFatal. now rewrite Hc.
    + intros i e He. rewrite (Hup i e He). reflexivity.
  - reflexivity.
  - cbn [events]. cbv iota.
    rewrite length_app in Hsl. cbn [length] in Hsl. rewrite Nat.add_1_r in Hsl.
    rewrite <- Hsl. rewrite !sleeps_retryEvents.
    rewrite sleeps_app, sleeps_retryEvents, imap_app. f_equal.
    cbn. unfold waitAfter. rewrite Hlast. now rewrite Nat.add_0_r, Z.add_0_l.
  - cbn [events]. cbv iota. unfold totalWait.
    rewrite length_app in Hsl. cbn [length] in Hsl. rewrite Nat.add_1_r in Hsl.
    rewrite <- sum_powers, <- Hsl. f_equal.
    rewrite !sleeps_retryEvents, sleeps_app, sleeps_retryEvents, imap_app. f_equal.
    cbn. unfold waitAfter. rewrite Hlast. now rewrite Nat.add_0_r, Z.add_0_l.
Qed.

Lemma rate_limit_exhaustion_witness :
  let rateLimitError := {| status := Some 429; message := lit "Rate limit exceeded" |} in
  exists w,
    generateContent (fun _ => Throws rateLimitError) 3 = Some (Failed rateLimitMessage, w) /\
    calls w = 3%nat /\
    sleeps (events w) = [1000; 2000; 4000] /\
    totalWait (events w) = 7000.
Proof.
  intros rateLimitError.
  refine (rate_limit_exhaustion (fun _ => Throws rateLimitError)
            [rateLimitError; rateLimitError; rateLimitError] _ eq_refl _).
  - discriminate.
  - intros [|[|[|i]]] e He; inversion He; reflexivity.
Defined.

(** X16: when every attempt of the budget fails with a retried error and
    none is rate-limited, one second is waited between consecutive
    attempts and nothing after the last; the error is "temporarily
    unavailable" after a last failure with status 500 or more, the network
    message after a last network failure, and otherwise the generic
    message with the text of the last error. *)
Theorem exhaustion_without_rate_limit (up : Upstream) (failures : list UpstreamError)
    (lastE : UpstreamError) :
  last failures = Some lastE ->
  forallb (fun e => negb (isFatal e)) failures = true ->
  existsb (fun e => hasStatus e 429) failures = false ->
  (forall i e, failures !! i = Some e -> failureOf (up i) = Some e) ->
  exists w,
    generateContent up (Z.of_nat (length failures))
    = Some (Failed
              match classify lastE with
              | ServerError => unavailableMessage
              | NetworkError => networkMessage
              | _ => lit "Unable to generate content: "
                     ++ (if bool_decide (message lastE = [])
                         then lit "Unknown error" else message lastE)
                     ++ lit ". Please try again."
              end, w) /\
    calls w = length failures /\
    sleeps (events w) = replicate (length failures - 1) 1000 /\
    totalWait (events w) = (Z.of_nat (length failures) - 1) * 1000.
Proof.
  intros Hl Hok H429 Hup.
  apply last_Some in Hl as [init ->].
  rewrite length_app. cbn [length]. rewrite Nat.add_1_r.
  rewrite (generateContent_exhaustion_run up init lastE Hok Hup).
  rewrite H429. rewrite existsb_app in H429. apply orb_false_elim in H429 as [Hinit Hlast].
  cbn [existsb] in Hlast. rewrite orb_false_r in Hlast. rewrite Hlast.
  assert (Hsl : sleeps (retryEvents 0 init ++ [UpstreamCall]) = replicate (length init) 1000).
  { rewrite sleeps_app, sleeps_retryEvents. cbn [sleeps flat_map app].
    rewrite app_nil_r. now apply imap_not_rate_limited. }
  eexists. split.
  { rewrite hasStatus_429_classify in Hlast. unfold allRetriesFailed.
    destruct (classify lastE); try discriminate Hlast; reflexivity. }
  split; [reflexivity|]. split.
  - cbn [events]. rewrite Hsl. f_equal. lia.
  - cbn [events]. unfold totalWait. rewrite Hsl, sum_replicate. lia.
Qed.

Lemma exhaustion_without_rate_limit_witness :
  let serverError := {| status := Some 503; message := lit "Service Unavailable" |} in
  exists w,
    generateContent (fun _ => Throws serverError) 3 = Some (Failed unavailableMessage, w) /\
    calls w = 3%nat /\
    sleeps (events w) = [1000; 1000] /\
    totalWait (events w) = 2000.
Proof.
  intros serverError.
  refine (exhaustion_without_rate_limit (fun _ => Throws serverError)
            [serverError; serverError; serverError] serverError eq_refl eq_refl eq_refl _).
  intros [|[|[|i]]] e He; inversion He; reflexivity.
Defined.

Lemma totalWait_snoc_call (evs : list Event) : totalWait (evs ++ [UpstreamCall]) = totalWait evs.
Proof. rewrite totalWait_app. cbn. lia. Qed.

Lemma totalWait_snoc_sleep (evs : list Event) (d : Z) :
  totalWait (evs ++ [Sleep d]) = totalWait evs + d.
Proof. rewrite totalWait_app. cbn. lia. Qed.

(** What holds of every run of the loop, whatever the upstream does. *)
Lemma retryLoop_invariants (up : Upstream) (maxRetries : Z) (fuel : nat) :
  forall attempt lastError isRateLimited w r w',
  0 <= attempt ->
  retryLoop up maxRetries fuel attempt lastError isRateLimited w = Some (r, w') ->
  Z.of_nat (calls w') <= Z.of_nat (calls w) + Z.max 0 (maxRetries - attempt) /\
  totalWait (events w')
  <= totalWait (events w) + (2 ^ Z.max attempt maxRetries - 2 ^ attempt) * 1000 /\
  match r with
  | Returned text =>
      text <> [] /\ (calls w < calls w')%nat
      /\ up (calls w' - 1)%nat = Completion (Some text)
      /\ last (events w') = Some UpstreamCall
  | Failed _ => True
  end.
Proof.
  induction fuel as [|fuel IH]; intros attempt lastError isRateLimited w r w' Ha Hrun.
  - cbn [retryLoop] in Hrun. destruct (Z.ltb_spec attempt maxRetries); [discriminate|].
    injection Hrun as <- <-. rewrite (Z.max_l attempt maxRetries) by lia.
    split; [lia|]. split; [lia|]. unfold allRetriesFailed. destruct isRateLimited; exact I.
  - destruct (Z.ltb_spec attempt maxRetries) as [Hlt|Hge].
    2:{ cbn [retryLoop] in Hrun. destruct (Z.ltb_spec attempt maxRetries); [lia|].
        injection Hrun as <- <-. rewrite (Z.max_l attempt maxRetries) by lia.
        split; [lia|]. split; [lia|]. unfold allRetriesFailed. destruct isRateLimited; exact I. }
    assert (Hpow : 2 ^ (attempt + 1) = 2 * 2 ^ attempt) by (rewrite Z.pow_add_r by lia; lia).
    assert (Hpos : 0 < 2 ^ attempt) by (apply Z.pow_pos_nonneg; lia).
    assert (Hmono : 2 ^ (attempt + 1) <= 2 ^ maxRetries) by (apply Z.pow_le_mono_r; lia).
    rewrite (Z.max_r attempt maxRetries) by lia.
    destruct (failureOf (up (calls w))) as [e|] eqn:Hf.
    + rewrite (retryLoop_failure_step up maxRetries fuel attempt lastError isRateLimited w e Hlt Hf)
        in Hrun.
      cbv zeta in Hrun.
      assert (Hagain : forall b d r w',
        0 <= d <= 2 ^ attempt * 1000 ->
        retryLoop up maxRetries fuel (attempt + 1) (Some e) b
          (sleep d {| calls := S (calls w); events := events w ++ [UpstreamCall] |})
        = Some (r, w') ->
        Z.of_nat (calls w') <= Z.of_nat (calls w) + Z.max 0 (maxRetries - attempt) /\
        totalWait (events w')
        <= totalWait (events w) + (2 ^ maxRetries - 2 ^ attempt) * 1000 /\
        match r with
        | Returned text =>
            text <> [] /\ (calls w < calls w')%nat
            /\ up (calls w' - 1)%nat = Completion (Some text)
            /\ last (events w') = Some UpstreamCall
        | Failed _ => True
        end).
      { intros b d r0 w0 Hd H0. apply IH in H0; [|lia].
        cbn [calls events sleep] in H0. rewrite (Z.max_r (attempt + 1) maxRetries) in H0 by lia.
        rewrite totalWait_snoc_sleep, totalWait_snoc_call in H0.
        destruct H0 as (Hc & Hw & Hr). split; [lia|]. split; [lia|].
        destruct r0; [|exact I]. destruct Hr as (? & ? & ? & ?). repeat split; try assumption. lia. }
      assert (Hnow : forall r w',
        retryLoop up maxRetries fuel (attempt + 1) (Some e) isRateLimited
          {| calls := S (calls w); events := events w ++ [UpstreamCall] |}
        = Some (r, w') ->
        Z.of_nat (calls w') <= Z.of_nat (calls w) + Z.max 0 (maxRetries - attempt) /\
        totalWait (events w')
        <= totalWait (events w) + (2 ^ maxRetries - 2 ^ attempt) * 1000 /\
        match r with
        | Returned text =>
            text <> [] /\ (calls w < calls w')%nat
            /\ up (calls w' - 1)%nat = Completion (Some text)
            /\ last (events w') = Some UpstreamCall
        | Failed _ => True
        end).
      { intros r0 w0 H0. apply IH in H0; [|lia].
        cbn [calls events] in H0. rewrite (Z.max_r (attempt + 1) maxRetries) in H0 by lia.
        rewrite totalWait_snoc_call in H0.
        destruct H0 as (Hc & Hw & Hr). split; [lia|]. split; [lia|].
        destruct r0; [|exact I]. destruct Hr as (? & ? & ? & ?). repeat split; try assumption. lia. }
      assert (Hstop : forall msg,
        Some (Failed msg, {| calls := S (calls w); events := events w ++ [UpstreamCall] |})
        = Some (r, w') ->
        Z.of_nat (calls w') <= Z.of_nat (calls w) + Z.max 0 (maxRetries - attempt) /\
        totalWait (events w')
        <= totalWait (events w) + (2 ^ maxRetries - 2 ^ attempt) * 1000 /\
        match r with
        | Returned text =>
            text <> [] /\ (calls w < calls w')%nat
            /\ up (calls w' - 1)%nat = Completion (Some text)
            /\ last (events w') = Some UpstreamCall
        | Failed _ => True
        end).
      { intros msg [= <- <-]. cbn [calls events]. rewrite totalWait_snoc_call.
        split; [lia|]. split; [lia|exact I]. }
      destruct (classify e);
        try (destruct (attempt <? maxRetries - 1));
        first [ eapply Hstop; exact Hrun
              | eapply Hnow; exact Hrun
              | eapply Hagain; [|exact Hrun]; lia ].
    + destruct (retryLoop_success_step up maxRetries fuel attempt lastError isRateLimited w Hlt Hf)
        as (text & Hup & Htext & Heq).
      rewrite Heq in Hrun. injection Hrun as <- <-. cbn [calls events].
      rewrite totalWait_snoc_call. split; [lia|]. split; [lia|].
      repeat split; [exact Htext | lia | | apply last_snoc].
      rewrite <- Hup. f_equal. lia.
Qed.

(** X17: whatever the upstream does, [generateContent] makes at most
    [maxRetries] upstream calls (none when [maxRetries] is not positive)
    and waits at most 2^maxRetries - 1 seconds in total. *)
Theorem generateContent_budget (up : Upstream) (maxRetries : Z) :
  exists r w,
    generateContent up maxRetries = Some (r, w) /\
    Z.of_nat (calls w) <= Z.max 0 maxRetries /\
    totalWait (events w) <= (2 ^ Z.max 0 maxRetries - 1) * 1000.
Proof.
  destruct (generateContent_total up maxRetries) as [[r w] H]. exists r, w.
  split; [exact H|]. unfold generateContent in H.
  apply retryLoop_invariants in H; [|lia]. cbn [calls events initial] in H.
  rewrite Z.sub_0_r in H. destruct H as (Hc & Hw & _). split; [lia|].
  change (totalWait []) with 0 in Hw. change (2 ^ 0) with 1 in Hw. lia.
Qed.

(** X18: a text returned by [generateContent] is never empty and is the
    content of the last upstream call; no wait follows that call. *)
Theorem returned_text_is_last_completion (up : Upstream) (maxRetries : Z)
    (text : jsstring) (w : World) :
  generateContent up maxRetries = Some (Returned text, w) ->
  text <> [] /\ (0 < calls w)%nat
  /\ up (calls w - 1)%nat = Completion (Some text)
  /\ last (events w) = Some UpstreamCall.
Proof.
  intros H. unfold generateContent in H.
  apply retryLoop_invariants in H; [|lia]. cbn [calls events initial] in H.
  destruct H as (_ & _ & H). exact H.
Qed.

Lemma returned_text_is_last_completion_witness :
  let up (i : nat) := match i with
                      | 0%nat => Completion None
                      | _ => Completion (Some (lit "Test marketing response"))
                      end in
  lit "Test marketing response" <> [] /\ (0 < 2)%nat
  /\ up (2 - 1)%nat = Completion (Some (lit "Test marketing response"))
  /\ last [UpstreamCall; Sleep 1000; UpstreamCall] = Some UpstreamCall.
Proof.
  intros up.
  exact (returned_text_is_last_completion up 3 (lit "Test marketing response")
           {| calls := 2; events := [UpstreamCall; Sleep 1000; UpstreamCall] |} eq_refl).
Defined.

End GeneratorWaits.

(** ** Client request layer: runs of [sendMessage] *)

Section ClientRunFacts.
Import Client ClientRuns.

Variable net : Network.

Lemma includes_fetch_weaker (s : jsstring) :
  includes (lit "fetch") s || includes (lit "Failed to fetch") s = includes (lit "fetch") s.
Proof.
  destruct (includes (lit "fetch") s) eqn:E; [reflexivity|]. cbn [orb].
  induction s as [|c s IH]; [reflexivity|].
  cbn [includes] in *. apply orb_false_elim in E as [Hs Ht].
  rewrite (IH Ht), orb_false_r.
  destruct (startsWith (lit "Failed to fetch") (c :: s)) eqn:Hst; [|reflexivity].
  exfalso.
  assert (Hin : includes (lit "fetch") (c :: s) = true).
  { clear - Hst. cbn in Hst.
    repeat match type of Hst with
           | ((_ =? _)%N && _) = true => apply andb_prop in Hst as [? Hst]
           | match ?l with [] => _ | _ :: _ => _ end = true => destruct l; [discriminate|]
           end.
    repeat match goal with H : (_ =? _)%N = true |- _ => apply N.eqb_eq in H; subst end.
    reflexivity. }
  cbn [includes] in Hin. rewrite Hs, Ht in Hin. discriminate.
Qed.

(** One attempt that is retried or, with the budget used up, fails. *)
Lemma sendMessageFrom_transient fuel retryCount w :
  transient (net (calls w)) = true ->
  sendMessageFrom net (S fuel) retryCount w
  = let w1 := {| calls := S (calls w); events := events w ++ [FetchCall] |} in
    if retryCount <? maxRetries then
      sendMessageFrom net fuel (retryCount + 1) (sleep (1000 * (retryCount + 1)) w1)
    else
      Some (Failed (newError match net (calls w) with
                             | Reply _ _ => unavailableMessage
                             | _ => networkMessage
                             end), w1).
Proof.
  intros Ht. cbn [sendMessageFrom]. unfold callFetch.
  destruct (net (calls w)) as [status json|e|]; cbn [transient] in Ht; [| |discriminate].
  - apply andb_prop in Ht as [Hs Hb]. apply Z.leb_le in Hs.
    rewrite tryBlock_server_error by assumption.
    destruct (retryCount <? maxRetries); reflexivity.
  - apply andb_prop in Ht as [Hn Hf]. apply negb_true_iff in Hn.
    cbn [tryBlock]. rewrite Hn, includes_fetch_weaker, Hf. reflexivity.
Qed.

Lemma sendMessageFrom_retries k : forall fuel retryCount w,
  retryCount + Z.of_nat k <= maxRetries ->
  (forall i, (i < k)%nat -> transient (net (calls w + i)%nat) = true) ->
  sendMessageFrom net (k + fuel) retryCount w
  = sendMessageFrom net fuel (retryCount + Z.of_nat k)
      {| calls := calls w + k; events := events w ++ retryEvents retryCount k |}.
Proof.
  induction k as [|k IH]; intros fuel retryCount w Hle Ht.
  - cbn [retryEvents Nat.add]. rewrite Z.add_0_r, Nat.add_0_r, app_nil_r. destruct w; reflexivity.
  - cbn [Nat.add]. rewrite sendMessageFrom_transient.
    2:{ specialize (Ht 0%nat ltac:(lia)). now rewrite Nat.add_0_r in Ht. }
    cbv zeta. destruct (Z.ltb_spec retryCount maxRetries); [|lia].
    rewrite IH.
    + cbn [calls events sleep retryEvents]. f_equal; [lia|].
      f_equal; [lia|]. rewrite <- !app_assoc. reflexivity.
    + lia.
    + intros i Hi. cbn [calls sleep]. rewrite <- (Ht (S i) ltac:(lia)). do 2 f_equal. lia.
Qed.

End ClientRunFacts.

Section ClientRunTheorems.
Import Client ClientRuns.

Lemma client_fuel_split (k : nat) :
  Z.of_nat k <= maxRetries -> exists fuel, Z.to_nat (maxRetries + 1) = (k + S fuel)%nat.
Proof. unfold maxRetries. intros H. exists (2 - k)%nat. lia. Qed.

(** X19: after up to two retried attempts (replies with status 500 or
    more whose body is not the JSON value null, or network failures of
    [fetch]), an OK reply ends the run: [sendMessage] returns the parsed
    body of that reply; the retries were preceded by waits of 1000 ms and
    2000 ms, and nothing follows. *)
Theorem client_retries_then_success (net : Network) (k : nat) (status : Z)
    (data : JsVal) :
  Z.of_nat k <= maxRetries ->
  (forall i, (i < k)%nat -> transient (net i) = true) ->
  net k = Reply status (inr data) ->
  ok status = true ->
  sendMessage net
  = Some (Returned data,
          {| calls := S k; events := retryEvents 0 k ++ [FetchCall] |}).
Proof.
  intros Hk Ht Hn Hok. unfold sendMessage.
  destruct (client_fuel_split k Hk) as [fuel ->].
  rewrite sendMessageFrom_retries by (assumption || lia).
  cbn [sendMessageFrom callFetch calls events initial Nat.add app].
  rewrite Hn. cbn [tryBlock]. rewrite Hok. reflexivity.
Qed.

Lemma client_retries_then_success_witness :
  let data := JObj [ (lit "response", JStr (lit "Blog post created!"));
                     (lit "success", JBool true) ] in
  let net (i : nat) := match i with
                       | 0%nat => Reply 503 (inl {| name := lit "SyntaxError";
                                                    message := lit "Unexpected end of JSON input" |})
                       | 1%nat => RejectsWith {| name := lit "TypeError";
                                                 message := lit "Failed to fetch" |}
                       | _ => Reply 200 (inr data)
                       end in
  sendMessage net
  = Some (Returned data,
          {| calls := 3;
             events := [FetchCall; Sleep 1000; FetchCall; Sleep 2000; FetchCall] |}).
Proof.
  intros data net.
  refine (client_retries_then_success net 2 200 data _ _ eq_refl eq_refl).
  - unfold maxRetries. lia.
  - intros [|[|i]] Hi; [reflexivity | reflexivity | lia].
Defined.

(** X20: a reply with status 429 or 408 whose body is not the JSON value
    null, or the abort raised by the 30 s timer, ends the run at once with
    its fixed message, also after earlier attempts were retried: no wait
    follows and nothing is called again. *)
Theorem client_terminal_outcome (net : Network) (k : nat) (msg : jsstring) :
  Z.of_nat k <= maxRetries ->
  (forall i, (i < k)%nat -> transient (net i) = true) ->
  terminal (net k) = Some msg ->
  sendMessage net
  = Some (Failed (newError msg),
          {| calls := S k; events := retryEvents 0 k ++ [FetchCall] |}).
Proof.
  intros Hk Ht Hn. unfold sendMessage.
  destruct (client_fuel_split k Hk) as [fuel ->].
  rewrite sendMessageFrom_retries by (assumption || lia).
  cbn [sendMessageFrom callFetch calls events initial Nat.add app].
  destruct (net k) as [status json|e|]; cbn [terminal] in Hn; [| |discriminate].
  - destruct (readableBody json) eqn:Hb; [|discriminate]. cbn [negb] in Hn.
    destruct (getProp_readable json Hb) as [error Hg].
    unfold tryBlock. rewrite Hg.
    destruct (Z.eqb_spec status 429) as [->|H429].
    + injection Hn as <-. reflexivity.
    + destruct (Z.eqb_spec status 408) as [->|H408]; [|discriminate].
      injection Hn as <-. reflexivity.
  - cbn [tryBlock]. destruct (bool_decide (name e = lit "AbortError")); [|discriminate].
    injection Hn as <-. reflexivity.
Qed.

Lemma client_terminal_outcome_witness :
  let net (i : nat) := match i with
                       | 0%nat => Reply 500 (inr (JObj [(lit "success", JBool false)]))
                       | _ => Reply 429 (inr (JStr (lit "Too Many Requests")))
                       end in
  sendMessage net
  = Some (Failed (newError highDemandMessage),
          {| calls := 2; events := [FetchCall; Sleep 1000; FetchCall] |}).
Proof.
  intros net. refine (client_terminal_outcome net 1 highDemandMessage _ _ eq_refl).
  - unfold maxRetries. lia.
  - intros [|i] Hi; [reflexivity | lia].
Defined.

(** X21: when all three attempts are retried failures (replies with
    status 500 or more whose body is not the JSON value null, or network
    failures of [fetch], in any mix), the run is fetch, wait 1000 ms,
    fetch, wait 2000 ms, fetch; it fails with the network message when the
    last failure is a rejected [fetch], and with "temporarily unavailable"
    when it is a reply. *)
Theorem client_retry_budget_exhausted (net : Network) :
  (forall i, (i < 3)%nat -> transient (net i) = true) ->
  sendMessage net
  = Some (Failed (newError match net 2%nat with
                           | Reply _ _ => unavailableMessage
                           | _ => networkMessage
                           end),
          {| calls := 3;
             events := [FetchCall; Sleep 1000; FetchCall; Sleep 2000; FetchCall] |}).
Proof.
  intros Ht. unfold sendMessage.
  change (Z.to_nat (maxRetries + 1)) with (2 + 1)%nat.
  rewrite sendMessageFrom_retries;
    [|unfold maxRetries; lia | intros i Hi; apply (Ht i); lia].
  rewrite sendMessageFrom_transient by (apply (Ht 2%nat); lia).
  reflexivity.
Qed.

Lemma client_retry_budget_exhausted_witness :
  let net (i : nat) :=
    match i with
    | 0%nat => RejectsWith {| name := lit "TypeError"; message := lit "Failed to fetch" |}
    | 1%nat => Reply 502 (inl {| name := lit "SyntaxError";
                                 message := lit "Unexpected token '<'" |})
    | _ => Reply 500 (inr (JObj [ (lit "success", JBool false);
                                  (lit "error", JStr (lit "Failed to generate response: Generation timeout")) ]))
    end in
  sendMessage net
  = Some (Failed (newError unavailableMessage),
          {| calls := 3;
             events := [FetchCall; Sleep 1000; FetchCall; Sleep 2000; FetchCall] |}).
Proof.
  intros net. apply (client_retry_budget_exhausted net).
  intros [|[|[|i]]] Hi; [reflexivity | reflexivity | reflexivity | lia].
Defined.

(** One call of [sendMessage]: it ends the run, or (only while the budget
    lasts) waits and calls itself. *)
Lemma sendMessageFrom_step (net : Network) (fuel : nat) (retryCount : Z) (w : World) :
  let w1 := {| calls := S (calls w); events := events w ++ [FetchCall] |} in
  (exists r, sendMessageFrom net (S fuel) retryCount w = Some (r, w1))
  \/ (retryCount < maxRetries
      /\ sendMessageFrom net (S fuel) retryCount w
         = sendMessageFrom net fuel (retryCount + 1) (sleep (1000 * (retryCount + 1)) w1)).
Proof.
  intros w1. subst w1. cbn [sendMessageFrom]. unfold callFetch.
  destruct (tryBlock retryCount (net (calls w))) as [r| |[e|]] eqn:Ht; eauto.
  - right. split; [|reflexivity]. unfold tryBlock in Ht.
    repeat match type of Ht with
           | match ?x with _ => _ end = _ => destruct x eqn:?; try discriminate Ht
           end.
    now apply Z.ltb_lt.
  - destruct (bool_decide (name e = lit "AbortError")); eauto.
    destruct (includes (lit "fetch") (message e) || includes (lit "Failed to fetch") (message e));
      eauto.
    destruct (Z.ltb_spec retryCount maxRetries); eauto.
Qed.

(** X22: whatever the network does, [sendMessage] makes between one and
    three requests; before the second it waits 1000 ms and before the
    third 2000 ms, and it never waits after its last request. *)
Theorem sendMessage_budget (net : Network) :
  exists r w,
    sendMessage net = Some (r, w) /\
    (1 <= calls w <= 3)%nat /\
    events w = retryEvents 0 (calls w - 1) ++ [FetchCall] /\
    totalWait (events w) <= 3000.
Proof.
  unfold sendMessage. change (Z.to_nat (maxRetries + 1)) with 3%nat.
  destruct (sendMessageFrom_step net 2 0 initial) as [[r ->]|[_ ->]].
  { eexists _, _. split; [reflexivity|]. cbn. repeat split; try reflexivity; lia. }
  destruct (sendMessageFrom_step net 1 (0 + 1)
              (sleep (1000 * (0 + 1))
                 {| calls := S (calls initial); events := events initial ++ [FetchCall] |}))
    as [[r ->]|[_ ->]].
  { eexists _, _. split; [reflexivity|]. cbn. repeat split; try reflexivity; lia. }
  match goal with |- context [sendMessageFrom net 1 ?rc ?w] =>
    destruct (sendMessageFrom_step net 0 rc w) as [[r ->]|[Hlt _]]
  end.
  { eexists _, _. split; [reflexivity|]. cbn. repeat split; try reflexivity; lia. }
  unfold maxRetries in Hlt. lia.
Qed.

Lemma sendMessageFrom_S (net : Network) (fuel : nat) (retryCount : Z) (w : World) :
  sendMessageFrom net (S fuel) retryCount w
  = let w1 := {| calls := S (calls w); events := events w ++ [FetchCall] |} in
    let retry :=
      sendMessageFrom net fuel (retryCount + 1) (sleep (1000 * (retryCount + 1)) w1) in
    match tryBlock retryCount (net (calls w)) with
    | TryReturn r => Some (Returned r, w1)
    | TryRetry => retry
    | TryThrow (Some error) =>
        if bool_decide (name error = lit "AbortError") then
          Some (Failed (newError abortMessage), w1)
        else if includes (lit "fetch") (message error)
                || includes (lit "Failed to fetch") (message error) then
          if retryCount <? maxRetries then retry
          else Some (Failed (newError networkMessage), w1)
        else Some (Failed error, w1)
    | TryThrow None => Some (Failed (newError unexpectedMessage), w1)
    end.
Proof. reflexivity. Qed.

(** X23: a reply with another error status (not OK, not 429, not 408,
    below 500) whose [error] property is a string or is missing ends the
    run with that string, or with "Server error (status)" when it is empty
    or missing; but when that text contains "fetch", the reply is taken
    for a network failure and the request is sent again. *)
Theorem client_other_error_status (net : Network) (status : Z) (json : JsError + JsVal)
    (error : option jsstring) :
  net 0%nat = Reply status json ->
  ok status = false -> status <> 429 -> status <> 408 -> status < 500 ->
  errorProperty json = Some error ->
  exists r w,
    sendMessage net = Some (r, w) /\
    if includes (lit "fetch") (errorTextOf status error)
    then (2 <= calls w)%nat
    else r = Failed (newError (errorTextOf status error))
         /\ w = {| calls := 1; events := [FetchCall] |}.
Proof.
  intros Hn Hok H429 H408 H500 He.
  assert (Ht : tryBlock 0 (net 0%nat)
               = TryThrow (Some (newError (errorTextOf status error)))).
  { rewrite Hn. cbn [tryBlock]. rewrite Hok. cbn [negb].
    unfold errorProperty in He.
    destruct (getProp (errorDataOf json) (lit "error")) as [|v]; [discriminate|].
    destruct (Z.eqb_spec status 429); [contradiction|].
    destruct (Z.eqb_spec status 408); [contradiction|].
    destruct (Z.leb_spec 500 status); [lia|].
    destruct v as [| | | |text| |]; try discriminate; injection He as <-;
      [reflexivity|].
    destruct text; reflexivity. }
  unfold sendMessage. change (Z.to_nat (maxRetries + 1)) with 3%nat.
  rewrite sendMessageFrom_S. cbv zeta. cbn [calls events initial app]. rewrite Ht.
  cbn [name message newError]. rewrite includes_fetch_weaker.
  rewrite (bool_decide_eq_false_2 (lit "Error" = lit "AbortError")) by discriminate.
  destruct (includes (lit "fetch") (errorTextOf status error)).
  - change (0 <? maxRetries) with true. cbv iota.
    match goal with |- context [sendMessageFrom net 2 ?rc ?w] =>
      destruct (sendMessageFrom_step net 1 rc w) as [[r ->]|[_ ->]]
    end.
    { eexists _, _. split; [reflexivity|]. cbn. lia. }
    match goal with |- context [sendMessageFrom net 1 ?rc ?w] =>
      destruct (sendMessageFrom_step net 0 rc w) as [[r ->]|[Hlt _]]
    end.
    { eexists _, _. split; [reflexivity|]. cbn. lia. }
    unfold maxRetries in Hlt. lia.
  - eexists _, _. split; [reflexivity|]. split; reflexivity.
Qed.

Lemma client_other_error_status_witness :
  let json : JsError + JsVal :=
    inr (JObj [ (lit "success", JBool false);
                (lit "error", JStr (lit "Invalid request: message cannot be empty")) ]) in
  exists r w,
    sendMessage (fun _ => Reply 400 json) = Some (r, w) /\
    r = Failed (newError (lit "Invalid request: message cannot be empty"))
    /\ w = {| calls := 1; events := [FetchCall] |}.
Proof.
  intros json.
  refine (client_other_error_status (fun _ => Reply 400 json) 400 json
            (Some (lit "Invalid request: message cannot be empty"))
            eq_refl eq_refl _ _ _ eq_refl); lia.
Defined.

End ClientRunTheorems.

(** ** Endpoint replies as the client sees them *)

Section ClientServerFacts.
Import Client ClientRuns.

Lemma reply_400_is_validation (env : Server.Env) (req : Server.ChatRequest)
    (contexts : BrandContextStore.t) :
  Server.status (Server.reply (Server.chatHandler env req contexts)) = 400 ->
  exists msg, In msg ServerReplies.validationMessages
              /\ Server.reply (Server.chatHandler env req contexts)
                 = Server.errorReply 400 msg.
Proof.
  intros Hs. pose proof (chatHandler_cases env req contexts) as H.
  destruct (Server.validateRequest req) as [[m items]|r|e] eqn:Hv.
  - destruct (chatHandler_generated_status env req contexts m items Hv); lia.
  - rewrite H. destruct (validateRequest_respond _ _ Hv) as (msg & Hin & ->). eauto.
  - rewrite H in Hs. discriminate Hs.
Qed.

(** X24: a request that the endpoint rejects with status 400 is not sent
    again by the client: [sendMessage] fails after that single request,
    and its error carries the endpoint's validation text unchanged. *)
Theorem validation_errors_are_not_retried (env : Server.Env) (req : Server.ChatRequest)
    (contexts : BrandContextStore.t) (net : Network) :
  Server.status (Server.reply (Server.chatHandler env req contexts)) = 400 ->
  net 0%nat
  = Transport.asFetchResult (Server.reply (Server.chatHandler env req contexts)) ->
  exists msg,
    Server.error (Server.body (Server.reply (Server.chatHandler env req contexts)))
    = Some msg /\
    sendMessage net
    = Some (Failed (newError msg), {| calls := 1; events := [FetchCall] |}).
Proof.
  intros Hs Hn. destruct (reply_400_is_validation env req contexts Hs) as (msg & Hin & Hr).
  rewrite Hr in *. exists msg. split; [reflexivity|].
  unfold sendMessage. change (Z.to_nat (maxRetries + 1)) with 3%nat.
  rewrite sendMessageFrom_S. cbv zeta. cbn [calls events initial app]. rewrite Hn.
  cbn in Hin. destruct Hin as [<-|[<-|[<-|[<-|[<-|[<-|[]]]]]]]; reflexivity.
Qed.

Lemma validation_errors_are_not_retried_witness :
  let req := {| Server.message := JStr []; Server.history := JUndefined;
                Server.brandContext := None; Server.sessionId := None |} in
  let net (i : nat) :=
    Transport.asFetchResult
      (Server.reply (Server.chatHandler Server.testEnv req BrandContextStore.empty)) in
  exists msg,
    Server.error (Server.body
      (Server.reply (Server.chatHandler Server.testEnv req BrandContextStore.empty)))
    = Some msg /\
    sendMessage net
    = Some (Failed (newError msg), {| calls := 1; events := [FetchCall] |}).
Proof.
  intros req net.
  exact (validation_errors_are_not_retried Server.testEnv req BrandContextStore.empty net
           eq_refl eq_refl).
Defined.

End ClientServerFacts.

(** ** Input box: validation and sanitization before sending *)

Section InputBoxFacts.
Import InputBox SanitizedForm.

#[local] Arguments isWhiteSpace : simpl never.

(** X25: [validateInput] accepts a text exactly when the Send button is
    enabled for it (something is left after trimming and the text has at
    most 5000 code units); it never answers "Message is too short". *)
Theorem validateInput_accepts_valid_input (text : jsstring) :
  bool_decide (validateInput text = None) = isInputValid text /\
  validateInput text <> Some (lit "Message is too short").
Proof.
  unfold validateInput, isInputValid, MAX_MESSAGE_LENGTH, MIN_MESSAGE_LENGTH.
  destruct (Z.eqb_spec (Z.of_nat (length (Sanitize.trim text))) 0) as [E|E].
  - rewrite E. split; [reflexivity|]. intros Hx. vm_compute in Hx. discriminate Hx.
  - destruct (Z.ltb_spec (Z.of_nat (length (Sanitize.trim text))) 1); [lia|].
    destruct (Z.ltb_spec 0 (Z.of_nat (length (Sanitize.trim text)))); [|lia].
    destruct (Z.ltb_spec 5000 (Z.of_nat (length text)));
      destruct (Z.leb_spec (Z.of_nat (length text)) 5000); try lia.
    + split; [reflexivity|]. intros Hx. vm_compute in Hx. discriminate Hx.
    + split; [reflexivity|discriminate].
Qed.

Lemma removeNull_id (s : jsstring) :
  forallb (fun c => negb (c =? NUL)%N) s = true -> removeNull s = s.
Proof.
  unfold removeNull. induction s as [|c s IH]; [reflexivity|].
  cbn [forallb List.filter]. intros [Hc Hs]%andb_prop. rewrite Hc. f_equal. now apply IH.
Qed.

Lemma Forall_trimStart (P : N -> Prop) (s : jsstring) :
  Forall P s -> Forall P (Sanitize.trimStart s).
Proof.
  induction 1 as [|c s Hc Hs IH]; [constructor|]. cbn [Sanitize.trimStart].
  destruct (isWhiteSpace c); [exact IH | now constructor].
Qed.

Lemma Forall_trim (P : N -> Prop) (s : jsstring) :
  Forall P s -> Forall P (Sanitize.trim s).
Proof.
  intros H. unfold Sanitize.trim, Sanitize.trimEnd.
  apply Forall_rev, Forall_trimStart, Forall_rev, Forall_trimStart, H.
Qed.

Lemma Forall_collapseFrom (P : N -> Prop) (s : jsstring) : forall b,
  P SPACE -> Forall P s -> Forall P (Sanitize.collapseFrom b s).
Proof.
  intros b Hsp Hall. revert b. induction Hall as [|c s Hc Hs IH]; intros b; [constructor|].
  cbn [Sanitize.collapseFrom]. destruct (isWhiteSpace c), b; try constructor; auto.
Qed.

Lemma sanitizeInput_without_null (text : jsstring) :
  forallb (fun c => negb (c =? NUL)%N) text = true ->
  sanitizeInput text = Sanitize.sanitizeInput text.
Proof.
  intros H. unfold sanitizeInput, Sanitize.sanitizeInput.
  rewrite replaceNull_id.
  2:{ apply forallb_Forall_true in H. eapply Forall_impl; [exact H|].
      intros c Hc. cbn beta in Hc. apply negb_true_iff in Hc. now apply N.eqb_neq. }
  rewrite removeNull_id; [reflexivity|].
  apply forallb_Forall_true, Forall_trim. now apply forallb_Forall_true.
Qed.

(** X26: on a text without null characters the input box and the
    endpoint sanitize alike, so the endpoint leaves a message sanitized by
    the input box unchanged. *)
Theorem client_and_server_sanitize_alike (text : jsstring) :
  forallb (fun c => negb (c =? NUL)%N) text = true ->
  sanitizeInput text = Sanitize.sanitizeInput text /\
  Sanitize.sanitizeInput (sanitizeInput text) = sanitizeInput text.
Proof.
  intros H. rewrite sanitizeInput_without_null by exact H. split; [reflexivity|].
  apply sanitizeInput_id, isSanitized_sanitizeInput.
Qed.

Lemma client_and_server_sanitize_alike_witness :
  sanitizeInput (lit "  Test    message   with    spaces ")
  = Sanitize.sanitizeInput (lit "  Test    message   with    spaces ") /\
  Sanitize.sanitizeInput (sanitizeInput (lit "  Test    message   with    spaces "))
  = sanitizeInput (lit "  Test    message   with    spaces ").
Proof.
  apply (client_and_server_sanitize_alike (lit "  Test    message   with    spaces ")).
  reflexivity.
Defined.

Lemma trimStart_blank (s : jsstring) :
  forallb isWhiteSpace s = true -> Sanitize.trimStart s = [].
Proof.
  induction s as [|c s IH]; [reflexivity|]. cbn [forallb Sanitize.trimStart].
  intros [Hc Hs]%andb_prop. rewrite Hc. now apply IH.
Qed.

Lemma handleSend_sends (disabled : bool) (st st' : State) (msg : jsstring) :
  handleSend disabled st = (st', Some msg) ->
  msg = sanitizeInput (input st)
  /\ Sanitize.trim (input st) <> []
  /\ Z.of_nat (length (input st)) <= MAX_MESSAGE_LENGTH
  /\ st' = {| input := []; validationError := None |}.
Proof.
  unfold handleSend. destruct disabled; [discriminate|].
  destruct (validateInput (input st)) eqn:Hv; [discriminate|].
  destruct (Z.eqb_spec (Z.of_nat (length (Sanitize.trim (input st)))) 0) as [E|E];
    [discriminate|].
  intros [= <- <-]. repeat split.
  - intros H. rewrite H in E. now cbn in E.
  - unfold validateInput in Hv.
    destruct (Z.of_nat (length (Sanitize.trim (input st))) =? 0); [discriminate|].
    destruct (Z.of_nat (length (Sanitize.trim (input st))) <? MIN_MESSAGE_LENGTH);
      [discriminate|].
    destruct (Z.ltb_spec MAX_MESSAGE_LENGTH (Z.of_nat (length (input st))));
      [discriminate|assumption].
Qed.

(** X27: what the endpoint does with a message the input box sends. When
    the typed text has no null character, the endpoint's message checks
    accept the message as it is. When the typed text consists of null
    characters and white space only, the input box still sends a message,
    and the endpoint rejects it as empty. *)
Theorem endpoint_verdict_on_sent_message (disabled : bool) (st st' : State)
    (msg : jsstring) :
  handleSend disabled st = (st', Some msg) ->
  (if forallb (fun c => negb (c =? NUL)%N) (input st)
   then Server.validateMessage (JStr msg) = Server.Continue msg
   else True) /\
  (if forallb blank (input st)
   then Server.validateMessage (JStr msg)
        = Server.Respond
            (Server.errorReply 400 (lit "Invalid request: message cannot be empty"))
   else True).
Proof.
  intros Hsend. destruct (handleSend_sends _ _ _ _ Hsend) as (-> & Htrim & Hlen & _).
  split.
  - destruct (forallb _ (input st)) eqn:Hn; [|exact I].
    rewrite sanitizeInput_without_null by exact Hn.
    rewrite validateMessage_string.
    rewrite (sanitizeInput_id (Sanitize.sanitizeInput (input st)))
      by apply isSanitized_sanitizeInput.
    rewrite sanitizeInput_nil.
    assert (Hb : forallb blank (input st) = false).
    { apply not_true_iff_false. intros Hb. apply Htrim.
      unfold Sanitize.trim. rewrite trimStart_blank; [reflexivity|].
      apply forallb_Forall_true. apply forallb_Forall_true in Hb, Hn.
      assert (Hbn : Forall (fun c => blank c = true /\ negb (c =? NUL)%N = true) (input st))
        by (apply Forall_and; split; assumption).
      eapply Forall_impl; [exact Hbn|]. cbn beta.
      intros c [H1 H2]. unfold blank in H1. apply negb_true_iff in H2.
      now rewrite H2, orb_false_r in H1. }
    rewrite Hb.
    pose proof (length_sanitizeInput (input st)).
    destruct (Z.ltb_spec Server.MAX_MESSAGE_LENGTH
                (Z.of_nat (length (Sanitize.sanitizeInput (input st)))));
      [unfold Server.MAX_MESSAGE_LENGTH, MAX_MESSAGE_LENGTH in *; lia | reflexivity].
  - destruct (forallb blank (input st)) eqn:Hb; [|exact I].
    rewrite validateMessage_string, sanitizeInput_nil.
    assert (Hm : forallb blank (sanitizeInput (input st)) = true).
    { apply forallb_Forall_true. unfold sanitizeInput, Sanitize.collapseWhitespace.
      apply Forall_collapseFrom; [reflexivity|].
      unfold removeNull. apply Forall_forall. intros c Hc.
      apply list_elem_of_In, filter_In in Hc as [Hc _].
      apply forallb_Forall_true in Hb. apply (Forall_trim _ _) in Hb.
      rewrite Forall_forall in Hb. apply Hb. now apply list_elem_of_In. }
    now rewrite Hm.
Qed.

Lemma endpoint_verdict_on_sent_message_witness :
  (Server.validateMessage (JStr (lit "Create a blog post"))
   = Server.Continue (lit "Create a blog post")) /\
  (Server.validateMessage (JStr (lit " "))
   = Server.Respond
       (Server.errorReply 400 (lit "Invalid request: message cannot be empty"))).
Proof.
  split.
  - exact (proj1 (endpoint_verdict_on_sent_message false
                    {| input := lit "  Create a   blog post "; validationError := None |}
                    {| input := []; validationError := None |}
                    (lit "Create a blog post") eq_refl)).
  - exact (proj2 (endpoint_verdict_on_sent_message false
                    {| input := [NUL] ++ lit " " ++ [NUL]; validationError := None |}
                    {| input := []; validationError := None |}
                    (lit " ") eq_refl)).
Defined.

End InputBoxFacts.

(** ** Client-side brand context and the request the application sends *)

Section ClientContextFacts.
Import ClientContext.

Lemma orElse_assoc (x y z : FieldVal) : orElse x (orElse y z) = orElse (orElse x y) z.
Proof. unfold orElse. destruct (fieldTruthy x) eqn:Hx; [now rewrite Hx|]. reflexivity. Qed.

Lemma field_mergeBrandContext (existing newContext : BrandContext) (key : jsstring) :
  In key [lit "brandName"; lit "brandVoice"; lit "targetAudience"; lit "industry"] ->
  field (mergeBrandContext existing newContext) key
  = orElse (field newContext key) (field existing key).
Proof.
  intros Hk. unfold mergeBrandContext, field at 1.
  cbn in Hk. destruct Hk as [<-|[<-|[<-|[<-|[]]]]].
  - now rewrite lookup_insert_eq.
  - rewrite lookup_insert_ne by discriminate. now rewrite lookup_insert_eq.
  - rewrite !lookup_insert_ne by discriminate. now rewrite lookup_insert_eq.
  - rewrite !lookup_insert_ne by discriminate. now rewrite lookup_insert_eq.
Qed.

Lemma size_mergeBrandContext (existing newContext : BrandContext) :
  size (mergeBrandContext existing newContext) = 4%nat.
Proof.
  unfold mergeBrandContext.
  rewrite !map_size_insert_None; [apply f_equal, f_equal, f_equal, f_equal, map_size_empty|..];
    repeat (rewrite lookup_insert_ne by discriminate); apply lookup_empty.
Qed.

(** X28: [mergeBrandContext] always yields a record with the four fields;
    each field is the newer value when that is a non-empty string and the
    existing value otherwise (so an empty newer value erases nothing);
    and merging is associative. *)
Theorem mergeBrandContext_prefers_newer (a b c : BrandContext) :
  size (mergeBrandContext a b) = 4%nat /\
  Forall (fun key => field (mergeBrandContext a b) key
                     = (if fieldTruthy (field b key) then field b key else field a key))
    [lit "brandName"; lit "brandVoice"; lit "targetAudience"; lit "industry"] /\
  mergeBrandContext (mergeBrandContext a b) c = mergeBrandContext a (mergeBrandContext b c).
Proof.
  split; [apply size_mergeBrandContext|]. split.
  - apply Forall_forall. intros key Hk. apply list_elem_of_In in Hk.
    now rewrite field_mergeBrandContext.
  - unfold mergeBrandContext at 1 3.
    rewrite !field_mergeBrandContext by (cbn; tauto).
    now rewrite !orElse_assoc.
Qed.

(** X29: once the application holds a merged brand context, every request
    it builds carries a brand context (its fields with a value; the empty
    object when there is none) and no session id; so for each such request
    that passes validation the endpoint synthesizes a session id and
    stores the context under it. *)
Theorem merged_context_opens_a_session (env : Server.Env) (message : jsstring)
    (messages : list Prompt.Message) (existing newContext : BrandContext)
    (contexts : BrandContextStore.t) (m : jsstring) (items : list JsVal) :
  let req := requestBody message messages (mergeBrandContext existing newContext) in
  Server.validateRequest req = Server.Continue (m, items) ->
  Server.brandContext req = Some (overTheWire (mergeBrandContext existing newContext)) /\
  Server.sessionId req = None /\
  Server.store (Server.chatHandler env req contexts)
  = <[ Server.newSessionId env := overTheWire (mergeBrandContext existing newContext) ]>
      contexts.
Proof.
  intros req Hv.
  assert (Hb : Server.brandContext req
               = Some (overTheWire (mergeBrandContext existing newContext))).
  { subst req. unfold requestBody. cbn [Server.brandContext].
    now rewrite size_mergeBrandContext. }
  split; [exact Hb|]. split; [reflexivity|].
  pose proof (chatHandler_cases env req contexts) as H. rewrite Hv in H.
  cbv zeta in H. destruct H as (_ & -> & _).
  rewrite resolveBrandContext_store, Hb. reflexivity.
Qed.

Lemma merged_context_opens_a_session_witness :
  let req := requestBody (lit "Create an ad") [] (mergeBrandContext ∅ ∅) in
  Server.brandContext req = Some (overTheWire (mergeBrandContext ∅ ∅)) /\
  Server.sessionId req = None /\
  Server.store (Server.chatHandler Server.testEnv req BrandContextStore.empty)
  = <[ Server.newSessionId Server.testEnv := overTheWire (mergeBrandContext ∅ ∅) ]>
      BrandContextStore.empty.
Proof.
  exact (merged_context_opens_a_session Server.testEnv (lit "Create an ad") [] ∅ ∅
           BrandContextStore.empty (lit "Create an ad") [] eq_refl).
Defined.

Example merged_empty_context_is_sent_as_empty_object :
  overTheWire (mergeBrandContext ∅ ∅) = ∅.
Proof. apply map_eq. intros k. unfold overTheWire, mergeBrandContext, field, orElse.
  rewrite lookup_omap, lookup_empty. cbn.
  repeat (rewrite lookup_insert; destruct (decide _); [reflexivity|]).
  now rewrite lookup_empty.
Qed.

End ClientContextFacts.

(** ** System prompt *)

Section PromptFacts.
Import Prompt.

Lemma startsWith_app (x b : jsstring) : startsWith x (x ++ b) = true.
Proof. induction x as [|c x IH]; [reflexivity|]. cbn. now rewrite N.eqb_refl. Qed.

Lemma startsWith_app_r (x s b : jsstring) :
  startsWith x s = true -> startsWith x (s ++ b) = true.
Proof.
  revert s. induction x as [|c x IH]; intros s H; [reflexivity|].
  destruct s as [|d s]; [discriminate|]. cbn in *.
  apply andb_prop in H as [-> H]. now apply IH.
Qed.

Lemma includes_app_l (x a s : jsstring) :
  includes x s = true -> includes x (a ++ s) = true.
Proof.
  intros H. induction a as [|c a IH]; [exact H|].
  cbn [app includes]. rewrite IH. apply orb_true_r.
Qed.

Lemma includes_app_r (x s b : jsstring) :
  includes x s = true -> includes x (s ++ b) = true.
Proof.
  induction s as [|c s IH]; intros H.
  - cbn in H. rewrite orb_false_r in H. destruct x; [|discriminate].
    destruct b; reflexivity.
  - cbn [app includes] in *. apply orb_prop in H as [H|H].
    + pose proof (startsWith_app_r x (c :: s) b H) as H'. cbn [app] in H'. now rewrite H'.
    + rewrite (IH H). apply orb_true_r.
Qed.

Lemma includes_self (x : jsstring) : includes x x = true.
Proof.
  destruct x as [|c x]; [reflexivity|]. cbn [includes].
  rewrite <- (app_nil_r (c :: x)) at 2. now rewrite startsWith_app.
Qed.

Lemma fieldLine_mentions (label key value : jsstring) (ctx : BrandContext) :
  ctx !! key = Some (FString value) -> value <> [] ->
  includes (label ++ lit ": " ++ value) (fieldLine label ctx key) = true.
Proof.
  intros Hk Hv. unfold fieldLine. rewrite Hk. destruct value; [contradiction|].
  do 2 apply includes_app_l. apply includes_self.
Qed.

(** X30: when no specialized prompt applies, the system prompt built for
    a brand context contains, for every brand field that is a non-empty
    string, the line with its label and its value. *)
Theorem system_prompt_mentions_brand_fields
    (detect : jsstring -> option BrandContext -> option jsstring)
    (userMessage label key value : jsstring) (ctx : BrandContext) :
  match detect userMessage (Some ctx) with
  | Some (_ :: _) => False
  | _ => True
  end ->
  In (label, key) [ (lit "Brand Name", lit "brandName");
                    (lit "Brand Voice", lit "brandVoice");
                    (lit "Target Audience", lit "targetAudience");
                    (lit "Industry", lit "industry") ] ->
  ctx !! key = Some (FString value) ->
  value <> [] ->
  includes (label ++ lit ": " ++ value)
    (buildSystemPrompt detect userMessage (Some ctx)) = true.
Proof.
  intros Hd Hin Hk Hv.
  pose proof (fieldLine_mentions label key value ctx Hk Hv) as Hline.
  assert (Hprompt : buildSystemPrompt detect userMessage (Some ctx)
    = defaultPrompt ++ newline ++ newline ++ lit "Brand Context:"
      ++ fieldLine (lit "Brand Name") ctx (lit "brandName")
      ++ fieldLine (lit "Brand Voice") ctx (lit "brandVoice")
      ++ fieldLine (lit "Target Audience") ctx (lit "targetAudience")
      ++ fieldLine (lit "Industry") ctx (lit "industry")
      ++ newline ++ newline
      ++ lit "Ensure all generated content aligns with this brand context.").
  { unfold buildSystemPrompt. destruct (detect userMessage (Some ctx)) as [[|c s]|];
      [reflexivity | contradiction | reflexivity]. }
  rewrite Hprompt. do 4 apply includes_app_l.
  cbn in Hin. destruct Hin as [[= <- <-]|[[= <- <-]|[[= <- <-]|[[= <- <-]|[]]]]].
  - now apply includes_app_r.
  - apply includes_app_l. now apply includes_app_r.
  - do 2 apply includes_app_l. now apply includes_app_r.
  - do 3 apply includes_app_l. now apply includes_app_r.
Qed.

Lemma system_prompt_mentions_brand_fields_witness :
  includes (lit "Brand Voice: Professional")
    (buildSystemPrompt (fun _ _ => None) (lit "Hello")
       (Some (<[ lit "brandName" := FString (lit "TechCorp") ]>
                {[ lit "brandVoice" := FString (lit "Professional") ]}))) = true.
Proof.
  refine (system_prompt_mentions_brand_fields (fun _ _ => None) (lit "Hello")
            (lit "Brand Voice") (lit "brandVoice") (lit "Professional") _ I _ _ _).
  - right. left. reflexivity.
  - rewrite lookup_insert_ne by discriminate. apply lookup_singleton_eq.
  - discriminate.
Defined.

Lemma foldl_pushHistoryEntry (conversationHistory : list Message) :
  forall messages : list ChatMessage,
  foldl pushHistoryEntry messages conversationHistory
  = messages
    ++ ((fun msg => {| cm_role := role msg; cm_content := content msg |})
        <$> filter (fun msg => role msg = lit "user" \/ role msg = lit "assistant")
              conversationHistory).
Proof.
  induction conversationHistory as [|msg h IH]; intros messages.
  - cbn. now rewrite app_nil_r.
  - cbn [foldl]. rewrite IH, filter_cons. unfold pushHistoryEntry.
    destruct (decide (role msg = lit "user")) as [Hu|Hu].
    + rewrite (bool_decide_eq_true_2 _ Hu). cbn [orb].
      rewrite decide_True by (left; exact Hu).
      rewrite fmap_cons, <- app_assoc. reflexivity.
    + rewrite (bool_decide_eq_false_2 _ Hu). cbn [orb].
      destruct (decide (role msg = lit "assistant")) as [Ha|Ha].
      * rewrite (bool_decide_eq_true_2 _ Ha).
        rewrite decide_True by (right; exact Ha).
        rewrite fmap_cons, <- app_assoc. reflexivity.
      * rewrite (bool_decide_eq_false_2 _ Ha).
        rewrite decide_False by (intros [?|?]; contradiction).
        reflexivity.
Qed.

(** X1: the message list sent upstream is the system prompt, then exactly
    the history entries whose role is "user" or "assistant", in their
    order and reduced to role and content, then the current user message.
    Entries with any other role are left out, so none of the entries taken
    from the history has the role "system": a history entry cannot add a
    system message. *)
Theorem history_cannot_add_system_message (systemPrompt userMessage : jsstring)
    (conversationHistory : list Message) :
  let mid :=
    (fun msg => {| cm_role := role msg; cm_content := content msg |})
    <$> filter (fun msg => role msg = lit "user" \/ role msg = lit "assistant")
          conversationHistory in
  buildMessages systemPrompt conversationHistory userMessage
  = {| cm_role := lit "system"; cm_content := systemPrompt |}
    :: mid ++ [ {| cm_role := lit "user"; cm_content := userMessage |} ]
  /\ (length mid <= length conversationHistory)%nat
  /\ Forall (fun m => cm_role m <> lit "system") mid.
Proof.
  intros mid. subst mid. split; [|split].
  - unfold buildMessages. cbv zeta. rewrite foldl_pushHistoryEntry. reflexivity.
  - rewrite length_fmap. apply length_filter.
  - apply Forall_fmap, Forall_forall. intros msg Hin.
    apply list_elem_of_filter in Hin as [[Hr|Hr] _]; cbn; rewrite Hr; discriminate.
Qed.

End PromptFacts.
